(** * Welsh castles from Wikidata: a shallow embedding of
      [get_welsh_castles_from_wikidata.py] and the properties of its
      record mapper, console menu and persistence run. *)

From Stdlib Require Import ZArith String Ascii Lia.
From stdpp Require Import base option list gmap strings pretty.

Set Warnings "-register-all".

(** ** Python values *)

(** The values [response.json()] can hand to the program: [None], booleans,
    integers, strings, lists and dicts with string keys.  Floating point
    numbers are left out: no function of the module inspects a number. *)
Inductive json : Type :=
  | JNull
  | JBool (b : bool)
  | JNum (n : Z)
  | JStr (s : string)
  | JArr (items : list json)
  | JObj (fields : gmap string json).

(** The exceptions the modelled code can raise. *)
Inductive exn : Type :=
  | KeyError (key : string)
  | TypeError
  | IndexError
  | ValueError
  | AttributeError
  | UnboundLocalError
  | EOFError
  | FileNotFoundError (filename : string)
  | OSError
  | TransportError
  | DatabaseError.

(** A computation either returns a value or raises. *)
Inductive result (A : Type) : Type :=
  | Ok (a : A)
  | Raise (e : exn).
Arguments Ok {A} a.
Arguments Raise {A} e.

#[global] Instance result_ret : MRet result := λ A a, Ok a.
#[global] Instance result_bind : MBind result := λ A B f r,
  match r with
  | Ok a => f a
  | Raise e => Raise e
  end.

(** A castle is the dict built by the mapper: keys are field names. *)
Abbreviation castle := (gmap string json).

(** [v[key]] for a string key: only a dict can be subscripted by a string. *)
Definition getitem (v : json) (key : string) : result json :=
  match v with
  | JObj fields =>
      match fields !! key with
      | Some x => Ok x
      | None => Raise (KeyError key)
      end
  | _ => Raise TypeError
  end.

(** [castle[key]] on a record of the castle list. *)
Definition castle_get (c : castle) (key : string) : result json :=
  match c !! key with
  | Some x => Ok x
  | None => Raise (KeyError key)
  end.

Definition is_substring (needle hay : string) : bool :=
  match String.index 0 needle hay with
  | Some _ => true
  | None => false
  end.

Definition is_str (key : string) (v : json) : bool :=
  match v with
  | JStr s => String.eqb s key
  | _ => false
  end.

(** [key in v] for a string key: key membership in a dict, element
    membership in a list, substring test in a string. *)
Definition contains (key : string) (v : json) : result bool :=
  match v with
  | JObj fields => Ok (bool_decide (is_Some (fields !! key)))
  | JArr items => Ok (existsb (is_str key) items)
  | JStr s => Ok (is_substring key s)
  | _ => Raise TypeError
  end.

Fixpoint characters (s : string) : list json :=
  match s with
  | EmptyString => []
  | String c rest => JStr (String c EmptyString) :: characters rest
  end.

(** The items a [for] loop over [v] visits: the elements of a list, the
    keys of a dict, the characters of a string. *)
Definition iterate (v : json) : result (list json) :=
  match v with
  | JArr items => Ok items
  | JObj fields => Ok (JStr <$> (map_to_list fields).*1)
  | JStr s => Ok (characters s)
  | _ => Raise TypeError
  end.

(** A [for] loop whose body updates the loop state or raises. *)
Fixpoint for_each {A S : Type} (body : S → A → result S)
    (items : list A) (st : S) : result S :=
  match items with
  | [] => Ok st
  | x :: rest => st' ← body st x; for_each body rest st'
  end.

(** ** RecordMapper: [get_castles_from_json] *)

(** The body of the loop over the bindings. *)
Definition append_castle (castles : list castle) (item : json)
    : result (list castle) :=
  let castle0 : castle := ∅ in
  label ← getitem item "itemLabel";
  name ← getitem label "value";
  let castle1 := <["name" := name]> castle0 in
  label ← getitem item "locationLabel";
  location ← getitem label "value";
  let castle2 := <["location" := location]> castle1 in
  has_image ← contains "image" item;
  castle3 ←
    (if has_image : bool then
       cell ← getitem item "image";
       image ← getitem cell "value";
       Ok (<["image" := image]> castle2)
     else
       Ok (<["image" := JNull]> castle2));
  Ok (castles ++ [castle3]).

Definition get_castles_from_json (json_data : json) : result (list castle) :=
  results ← getitem json_data "results";
  bindings ← getitem results "bindings";
  items ← iterate bindings;
  for_each append_castle items [].


(** ** InteractiveMenu: [is_integer], [get_integer_input_in_range],
       [get_option_from_list] *)

(** What the program writes to the console: the prompt of an [input] call,
    a printed line, a printed parameter tuple, a pretty-printed castle. *)
Inductive output : Type :=
  | Shown (prompt : string)
  | Printed (line : string)
  | PrintedTuple (values : list json)
  | PrettyPrinted (c : castle).

Definition newline : string := String (ascii_of_nat 10) EmptyString.

(** [f"{index}.) {value}"]: the index of an option has few digits and is
    always formatted. *)
Definition option_line (index : nat) (value : string) : output :=
  Printed (pretty index +:+ ".) " +:+ value).

Section Console.

(** Two builtins of the interpreter.  [int val] is [int(val)] on a string,
    [None] standing for its [ValueError].  [printable n] tells whether the
    interpreter formats the integer [n] as a string, which it refuses with
    [ValueError] beyond its limit on the number of digits; a formatted
    integer is written in decimal notation. *)
Variable int : string → option Z.
Variable printable : Z → bool.

Definition is_integer (val : string) : bool :=
  match int val with
  | Some _ => true
  | None => false
  end.

Definition str (n : Z) : option string :=
  if printable n then Some (pretty n) else None.

(** [f"{int_val} not in range {min_val} - {max_val}"], [None] when one of
    the three integers is not formatted. *)
Definition not_in_range (int_val min_val max_val : Z) : option string :=
  a ← str int_val;
  b ← str min_val;
  c ← str max_val;
  Some (a +:+ " not in range " +:+ b +:+ " - " +:+ c).

(** The [while not is_integer(inp)] loop.  [lines] is the console input
    not read yet, [out] what has been written so far; [int_val] is unbound
    ([None]) until the body has run once.  At the end of the input
    [input(prompt)] raises [EOFError]. *)
Fixpoint while_not_integer (prompt : string) (min_val max_val : Z)
    (inp : string) (int_val : option Z)
    (lines : list string) (out : list output)
    : result (Z * list string * list output) :=
  if is_integer inp then
    match int_val with
    | Some v => Ok (v, lines, out)
    | None => Raise UnboundLocalError
    end
  else
    match lines with
    | [] => Raise EOFError
    | line :: rest =>
        let out := out ++ [Shown prompt] in
        let inp := line in
        let int_val := (-1001)%Z in
        if is_integer inp then
          match int inp with
          | None => Raise ValueError
          | Some int_val =>
              if (int_val <? min_val)%Z || (int_val >? max_val)%Z then
                match not_in_range int_val min_val max_val with
                | None => Raise ValueError
                | Some text =>
                    let out := out ++ [Printed text] in
                    let inp := EmptyString in
                    while_not_integer prompt min_val max_val inp (Some int_val)
                      rest out
                end
              else
                while_not_integer prompt min_val max_val inp (Some int_val) rest out
          end
        else
          while_not_integer prompt min_val max_val inp (Some int_val) rest out
    end.

Definition get_integer_input_in_range (prompt : string) (min_val max_val : Z)
    (lines : list string) (out : list output)
    : result (Z * list string * list output) :=
  let inp := EmptyString in
  while_not_integer prompt min_val max_val inp None lines out.

Definition get_option_from_list (list_of_options : list string)
    (lines : list string) (out : list output)
    : result (Z * list string * list output) :=
  let out := out ++ imap (λ i value, option_line (S i) value) list_of_options in
  '(value, lines, out) ←
    get_integer_input_in_range
      ("Select an option by choosing a number." +:+ newline)
      1 (Z.of_nat (length list_of_options)) lines out;
  Ok ((value - 1)%Z, lines, out).

End Console.

(** ** The builtins on ASCII text *)

(** An instance of the two builtins, for evaluation: [int] on a string of
    ASCII characters and the default limit of 4300 digits on conversions
    between integers and strings. *)

(** The ASCII white space [int] strips: tab, line feed, vertical tab, form
    feed, carriage return and space. *)
Definition is_space (c : ascii) : bool :=
  let n := nat_of_ascii c in
  ((9 <=? n) && (n <=? 13) || (n =? 32))%nat.

Definition digit_value (c : ascii) : option Z :=
  let n := nat_of_ascii c in
  if ((48 <=? n) && (n <=? 57))%nat then Some (Z.of_nat n - 48)%Z else None.

Fixpoint lstrip (s : string) : string :=
  match s with
  | String c rest => if is_space c then lstrip rest else s
  | EmptyString => EmptyString
  end.

Fixpoint rstrip (s : string) : string :=
  match s with
  | String c rest =>
      match rstrip rest with
      | EmptyString => if is_space c then EmptyString else String c EmptyString
      | kept => String c kept
      end
  | EmptyString => EmptyString
  end.

(** Decimal digits, single underscores allowed between two digits;
    [after_digit] tells whether the previous character was a digit. *)
Fixpoint digits (s : string) (acc : Z) (after_digit : bool) : option Z :=
  match s with
  | EmptyString => if after_digit then Some acc else None
  | String c rest =>
      match digit_value c with
      | Some d => digits rest (10 * acc + d)%Z true
      | None =>
          if Ascii.eqb c "_" && after_digit then digits rest acc false
          else None
      end
  end.

Fixpoint digit_count (s : string) : nat :=
  match s with
  | EmptyString => 0
  | String c rest =>
      match digit_value c with
      | Some _ => S (digit_count rest)
      | None => digit_count rest
      end
  end.

Definition max_str_digits : nat := 4300.

(** [int(val)] on ASCII text: white space stripped, an optional sign, then
    at most [max_str_digits] digits. *)
Definition ascii_int (val : string) : option Z :=
  let body := rstrip (lstrip val) in
  if (max_str_digits <? digit_count body)%nat then None
  else
    match body with
    | String "-" rest => Z.opp <$> digits rest 0 false
    | String "+" rest => digits rest 0 false
    | _ => digits body 0 false
    end.

(** The least integer with more than [max_str_digits] digits. *)
Definition unprintable_bound : Z :=
  Eval vm_compute in (10 ^ Z.of_nat max_str_digits)%Z.

(** An integer is formatted when it has at most [max_str_digits] digits. *)
Definition within_limit (n : Z) : bool := (Z.abs n <? unprintable_bound)%Z.

(** ** The world the program acts on *)

(** Values as the database stores them. *)
Inductive sqlval : Type :=
  | SqlNull
  | SqlInt (n : Z)
  | SqlText (s : string).

(** A row of the castles table: name, location, image. *)
Definition row : Type := sqlval * sqlval * sqlval.

(** The console, the castles table of [castles.db] ([db_exists] tells
    whether the file is there; a missing file holds no row), the calls
    made on a cursor and the images fetched (URL and file written). *)
Record world : Type := World {
  stdin : list string;
  stdout : list output;
  db_exists : bool;
  table : list row;
  executed : list (string * list json);
  fetched : list (string * string)
}.

Definition set_console (lines : list string) (out : list output) (w : world) : world :=
  World lines out (db_exists w) (table w) (executed w) (fetched w).

Definition write (o : output) (w : world) : world :=
  World (stdin w) (stdout w ++ [o]) (db_exists w) (table w) (executed w) (fetched w).

Definition create_sqlite_file (w : world) : world :=
  World (stdin w) (stdout w) true [] (executed w) (fetched w).

Definition log_call (query : string) (parameters : list json) (w : world) : world :=
  World (stdin w) (stdout w) (db_exists w) (table w)
        (executed w ++ [(query, parameters)]) (fetched w).

Definition commit (cur : list row) (w : world) : world :=
  World (stdin w) (stdout w) (db_exists w) cur (executed w) (fetched w).

Definition log_fetch (url filename : string) (w : world) : world :=
  World (stdin w) (stdout w) (db_exists w) (table w) (executed w)
        (fetched w ++ [(url, filename)]).

(** Truth value of a Python value, as [if castle["image"]:] tests it. *)
Definition truthy (v : json) : bool :=
  match v with
  | JNull => false
  | JBool b => b
  | JNum n => negb (n =? 0)%Z
  | JStr s => negb (String.eqb s EmptyString)
  | JArr items => negb (bool_decide (items = []))
  | JObj fields => negb (bool_decide (fields = ∅))
  end.

(** [v is not None]. *)
Definition is_not_none (v : json) : bool :=
  match v with
  | JNull => false
  | _ => true
  end.

(** How the sqlite3 module binds a Python value as a statement parameter;
    lists and dicts cannot be bound, integers must fit 64 bits. *)
Definition adapt (v : json) : result sqlval :=
  match v with
  | JNull => Ok SqlNull
  | JBool b => Ok (SqlInt (if b then 1 else 0))
  | JNum n =>
      if ((- 2 ^ 63 <=? n) && (n <? 2 ^ 63))%Z then Ok (SqlInt n)
      else Raise DatabaseError
  | JStr s => Ok (SqlText s)
  | JArr _ | JObj _ => Raise DatabaseError
  end.

Fixpoint adapt_all (parameters : list json) : result (list sqlval) :=
  match parameters with
  | [] => Ok []
  | v :: rest => b ← adapt v; bs ← adapt_all rest; Ok (b :: bs)
  end.

(** [random.choice(seq)]: [draw] is the entropy the generator consumes,
    every index below [len(seq)] is reached by some [draw]. *)
Definition choice {A : Type} (draw : nat) (seq : list A) : result A :=
  match seq !! (draw mod length seq)%nat with
  | Some x => Ok x
  | None => Raise IndexError
  end.

(** [wikimedia_commons_url.split("/")[-1]]. *)
Fixpoint last_segment (url : string) (segment : string) : string :=
  match url with
  | EmptyString => segment
  | String c rest =>
      if Ascii.eqb c "/" then last_segment rest EmptyString
      else last_segment rest (segment +:+ String c EmptyString)
  end.

(** Only a string has [split] ([AttributeError] otherwise).  [http_get]
    is [requests.get] ([None]: it raises), [can_write] tells whether
    [open(filename, "wb")] succeeds on a non-empty file name; the empty
    name can never be opened.  The request and the file written are
    recorded. *)
Definition download_wikimedia_commons_image
    (http_get : string → option string) (can_write : string → bool)
    (wikimedia_commons_url : json) (w : world) : result world :=
  match wikimedia_commons_url with
  | JStr url =>
      let filename := last_segment url EmptyString in
      match http_get url with
      | None => Raise TransportError
      | Some content =>
          if String.eqb filename EmptyString then
            Raise (FileNotFoundError filename)
          else if can_write filename then Ok (log_fetch url filename w)
          else Raise OSError
      end
  | _ => Raise AttributeError
  end.

(** One step of the comprehension
    [[castle for castle in castles if castle["image"] is not None]]. *)
Definition keep_with_image (kept : list castle) (c : castle)
    : result (list castle) :=
  image ← castle_get c "image";
  Ok (if is_not_none image then kept ++ [c] else kept).

(** [main], option 0, up to the random choice. *)
Definition pick_random_castle (draw : nat) (castles : list castle)
    : result castle :=
  castles_with_images ← for_each keep_with_image castles [];
  choice draw castles_with_images.

(** [main], option 0. *)
Definition download_random_castle
    (http_get : string → option string) (can_write : string → bool)
    (draw : nat) (castles : list castle) (w : world) : result world :=
  random_castle ← pick_random_castle draw castles;
  random_castle_image ← castle_get random_castle "image";
  let w := write (PrettyPrinted random_castle) w in
  download_wikimedia_commons_image http_get can_write random_castle_image w.

Definition options : list string :=
  ["Download a Random Castle"; "Populate SQLite Table"].

Section Program.

(** The text files next to the script ([None]: no such file), the remote
    query service, the database engine behind [cursor.execute] ([None]: the
    engine raises) and the entropy of the random generator; then the two
    builtins of the console menu, the image service and the file system of
    the download. *)
Variable read_file : string → option string.
Variable wikidata : string → result json.
Variable cursor_execute : string → list sqlval → list row → option (list row).
Variable draw : nat.
Variable int : string → option Z.
Variable printable : Z → bool.
Variable http_get : string → option string.
Variable can_write : string → bool.

Definition get_query (filename : string) : result string :=
  match read_file filename with
  | Some text => Ok text
  | None => Raise (FileNotFoundError filename)
  end.

Definition get_wikidata_from_sparql_as_json (query : string) : result json :=
  wikidata query.

(** [cursor.execute(query, parameters)] on the connection's view [cur] of
    the table. *)
Definition execute (cur : list row) (query : string) (parameters : list json)
    (w : world) : result (list row * world) :=
  bound ← adapt_all parameters;
  match cursor_execute query bound cur with
  | Some cur' => Ok (cur', log_call query parameters w)
  | None => Raise DatabaseError
  end.

Definition execute_sqlite_query (cur : list row) (query : string)
    (parameters : list json) (w : world) : result (list row * world) :=
  if negb (bool_decide (parameters = [])) then
    let w := write (Printed query) w in
    let w := write (PrintedTuple parameters) w in
    execute cur query parameters w
  else
    execute cur query [] w.

(** The body of [for castle in castles:] in option 1. *)
Definition insert_castle (insert_castle_queries : string * string)
    (st : list row * world) (c : castle) : result (list row * world) :=
  let '(without_image, with_image) := insert_castle_queries in
  let '(cur, w) := st in
  image ← castle_get c "image";
  '(castle_tuple, insert_castle_query) ←
    (if truthy image then
       name ← castle_get c "name";
       location ← castle_get c "location";
       image ← castle_get c "image";
       Ok ([name; location; image], with_image)
     else
       name ← castle_get c "name";
       location ← castle_get c "location";
       Ok ([name; location], without_image));
  execute_sqlite_query cur insert_castle_query castle_tuple w.

(** [main], option 1. *)
Definition populate_table (castles : list castle) (w : world) : result world :=
  let w := if db_exists w then w else create_sqlite_file w in
  create_table_query ← get_query "createTable.sql";
  let cur := table w in
  '(cur, w) ← execute_sqlite_query cur create_table_query [] w;
  delete_data_query ← get_query "deleteData.sql";
  '(cur, w) ← execute_sqlite_query cur delete_data_query [] w;
  without_image ← get_query "insertCastleWithoutImage.sql";
  with_image ← get_query "insertCastleImage.sql";
  '(cur, w) ← for_each (insert_castle (without_image, with_image)) castles (cur, w);
  Ok (commit cur w).

Definition main (w : world) : result world :=
  query ← get_query "wikidata_query.rq";
  data ← get_wikidata_from_sparql_as_json query;
  castles ← get_castles_from_json data;
  '(option_selected, lines, out) ←
    get_option_from_list int printable options (stdin w) (stdout w);
  let w := set_console lines out w in
  w ← (if (option_selected =? 0)%Z
       then download_random_castle http_get can_write draw castles w
       else Ok w);
  if (option_selected =? 1)%Z then populate_table castles w else Ok w.

End Program.

(** ** The vocabulary of the specification *)

(** The binding list of a query result: [results.bindings], an array. *)
Definition bindings_of (json_data : json) : option (list json) :=
  match json_data with
  | JObj top =>
      match top !! "results" with
      | Some (JObj results) =>
          match results !! "bindings" with
          | Some (JArr items) => Some items
          | _ => None
          end
      | _ => None
      end
  | _ => None
  end.

(** A binding has variable [var] when it is an object with that key. *)
Definition has_variable (item : json) (var : string) : bool :=
  match item with
  | JObj fields => bool_decide (is_Some (fields !! var))
  | _ => false
  end.

(** The [value] field of variable [var] of a binding. *)
Definition variable_value (item : json) (var : string) : option json :=
  match item with
  | JObj fields =>
      match fields !! var with
      | Some (JObj cell) => cell !! "value"
      | _ => None
      end
  | _ => None
  end.

(** A well-formed binding: an object in which [itemLabel] and
    [locationLabel] are present, and in which these two and [image], when
    it is present, are objects with a [value] field. *)
Definition well_formed_binding (item : json) : bool :=
  bool_decide (is_Some (variable_value item "itemLabel"))
  && bool_decide (is_Some (variable_value item "locationLabel"))
  && (negb (has_variable item "image")
      || bool_decide (is_Some (variable_value item "image"))).

Definition well_formed (json_data : json) : bool :=
  match bindings_of json_data with
  | Some items => forallb well_formed_binding items
  | None => false
  end.

(** The record built from the values of a binding. *)
Definition mapped (item : json) : castle :=
  <["image" := default JNull (variable_value item "image")]>
    (<["location" := default JNull (variable_value item "locationLabel")]>
       (<["name" := default JNull (variable_value item "itemLabel")]> ∅)).

(** The condition the specification calls SchemaViolation: the [KeyError]
    or [TypeError] of a failed subscript. *)
Definition schema_violation (e : exn) : bool :=
  match e with
  | KeyError _ | TypeError => true
  | _ => false
  end.

(** A record has an image when its [image] field is not [None]. *)
Definition has_image (c : castle) : bool :=
  match c !! "image" with
  | Some v => is_not_none v
  | None => false
  end.

(** A record in which the three fields are defined. *)
Definition has_keys (c : castle) : Prop :=
  is_Some (c !! "name") ∧ is_Some (c !! "location") ∧ is_Some (c !! "image").

Definition is_key_error (e : exn) : bool :=
  match e with
  | KeyError _ => true
  | _ => false
  end.

Definition non_empty_string (v : json) : bool :=
  match v with
  | JStr s => negb (String.eqb s EmptyString)
  | _ => false
  end.

Definition is_alpha (c : ascii) : bool :=
  let n := nat_of_ascii c in
  ((65 <=? n) && (n <=? 90) || (97 <=? n) && (n <=? 122))%nat.

Definition is_scheme_char (c : ascii) : bool :=
  is_alpha c || bool_decide (is_Some (digit_value c))
  || Ascii.eqb c "+" || Ascii.eqb c "-" || Ascii.eqb c ".".

(** What follows the colon that ends a URL scheme. *)
Fixpoint after_scheme (s : string) : option string :=
  match s with
  | EmptyString => None
  | String c rest =>
      if Ascii.eqb c ":" then Some rest
      else if is_scheme_char c then after_scheme rest
      else None
  end.

(** Syntactic validity of a URL: a scheme (a letter, then letters, digits,
    [+], [-] or [.]), a colon and a non-empty remainder. *)
Definition valid_url (v : json) : bool :=
  match v with
  | JStr (String c rest) =>
      is_alpha c
      && match after_scheme rest with
         | Some (String _ _) => true
         | _ => false
         end
  | _ => false
  end.

(** The invariant of the data model on three field values. *)
Definition invariant_on (name location image : option json) : bool :=
  match name, location, image with
  | Some n, Some l, Some i =>
      non_empty_string n && non_empty_string l
      && (negb (is_not_none i) || valid_url i)
  | _, _, _ => false
  end.

Definition castle_invariant (c : castle) : bool :=
  invariant_on (c !! "name") (c !! "location") (c !! "image").

(** The same invariant read on the values of the source binding. *)
Definition binding_invariant (item : json) : bool :=
  invariant_on (variable_value item "itemLabel")
               (variable_value item "locationLabel")
               (Some (default JNull (variable_value item "image"))).

(** The console lines a rejected input line produces: the prompt it
    answered and, when it parsed to an integer, the out-of-range message;
    [None] when that message cannot be formatted. *)
Definition rejection (int : string → option Z) (printable : Z → bool)
    (prompt : string) (min_val max_val : Z) (line : string)
    : option (list output) :=
  match int line with
  | Some n =>
      text ← not_in_range printable n min_val max_val;
      Some [Shown prompt; Printed text]
  | None => Some [Shown prompt]
  end.

(** A line the loop accepts. *)
Definition accepted (int : string → option Z) (min_val max_val : Z)
    (line : string) : bool :=
  match int line with
  | Some n => (min_val <=? n)%Z && (n <=? max_val)%Z
  | None => false
  end.

Definition is_diagnostic (o : output) : bool :=
  match o with
  | Printed _ => true
  | _ => false
  end.

Definition field (c : castle) (key : string) : json :=
  default JNull (c !! key).

(** The value the database stores for a bound Python value. *)
Definition stored (v : json) : sqlval :=
  match adapt v with
  | Ok b => b
  | Raise _ => SqlNull
  end.

(** The texts of the four statements. *)
Record statements : Type := Statements {
  create_table_query : string;
  delete_data_query : string;
  insert_without_image : string;
  insert_with_image : string
}.

Definition loads (read_file : string → option string) (s : statements) : Prop :=
  read_file "createTable.sql" = Some (create_table_query s)
  ∧ read_file "deleteData.sql" = Some (delete_data_query s)
  ∧ read_file "insertCastleWithoutImage.sql" = Some (insert_without_image s)
  ∧ read_file "insertCastleImage.sql" = Some (insert_with_image s).

(** Modelled from the spec: the files [createTable.sql], [deleteData.sql],
    [insertCastleImage.sql] and [insertCastleWithoutImage.sql] and the
    database engine are not among the sources.  The schema statement leaves
    the rows as they are, the delete-all statement removes every row, an
    insert that the engine accepts adds one row made of its bound
    parameters, the image column being null for the two-parameter one. *)
Record engine_contract
    (cursor_execute : string → list sqlval → list row → option (list row))
    (s : statements) : Prop := EngineContract {
  schema_keeps_rows : ∀ cur,
    cursor_execute (create_table_query s) [] cur = Some cur;
  delete_clears : ∀ cur,
    cursor_execute (delete_data_query s) [] cur = Some [];
  insert_three : ∀ n l i cur cur',
    cursor_execute (insert_with_image s) [n; l; i] cur = Some cur' →
    cur' = cur ++ [(n, l, i)];
  insert_two : ∀ n l cur cur',
    cursor_execute (insert_without_image s) [n; l] cur = Some cur' →
    cur' = cur ++ [(n, l, SqlNull)]
}.

(** The call the insert loop makes for a record, by the truth value of
    its image. *)
Definition insert_call (s : statements) (c : castle) : string * list json :=
  if truthy (field c "image") then
    (insert_with_image s, [field c "name"; field c "location"; field c "image"])
  else
    (insert_without_image s, [field c "name"; field c "location"]).

(** The call the specification asks for: by the presence of the image. *)
Definition presence_call (s : statements) (c : castle) : string * list json :=
  if is_not_none (field c "image") then
    (insert_with_image s, [field c "name"; field c "location"; field c "image"])
  else
    (insert_without_image s, [field c "name"; field c "location"]).

(** The row the table holds for a record after a run: its name, its
    location, and its image when the image is truthy, null otherwise. *)
Definition stored_row (c : castle) : result row :=
  name ← adapt (field c "name");
  location ← adapt (field c "location");
  image ← (if truthy (field c "image") then adapt (field c "image")
           else Ok SqlNull);
  Ok (name, location, image).

(** The row with the three values of the record, whatever the image. *)
Definition claimed_row (c : castle) : result row :=
  name ← adapt (field c "name");
  location ← adapt (field c "location");
  image ← adapt (field c "image");
  Ok (name, location, image).

(** What a statement does to the connection's view of the table. *)
Definition run_statement
    (cursor_execute : string → list sqlval → list row → option (list row))
    (cur : list row) (call : string * list json) : result (list row) :=
  bound ← adapt_all call.2;
  match cursor_execute call.1 bound cur with
  | Some cur' => Ok cur'
  | None => Raise DatabaseError
  end.

(** What [execute_sqlite_query] does to the console and the call log. *)
Definition echo (call : string * list json) (w : world) : world :=
  match call.2 with
  | [] => log_call call.1 [] w
  | _ => log_call call.1 call.2
           (write (PrintedTuple call.2) (write (Printed call.1) w))
  end.

(** The world in which the connection is opened. *)
Definition opened (w : world) : world :=
  if db_exists w then w else create_sqlite_file w.

(** A string without any slash. *)
Fixpoint slash_free (s : string) : bool :=
  match s with
  | EmptyString => true
  | String c rest => negb (Ascii.eqb c "/") && slash_free rest
  end.

(** What the insert of a record writes to the console: the statement, then
    the tuple of its parameters. *)
Definition echo_lines (s : statements) (c : castle) : list output :=
  [Printed (insert_call s c).1; PrintedTuple (insert_call s c).2].




(** ** Sample data *)

Definition cell (v : string) : json := JObj {[ "value" := JStr v ]}.

Definition binding (name location : string) (image : option string) : json :=
  let labels : gmap string json :=
    <["locationLabel" := cell location]> {[ "itemLabel" := cell name ]} in
  JObj match image with
       | Some url => <["image" := cell url]> labels
       | None => labels
       end.

Definition response (items : list json) : json :=
  JObj {[ "results" := JObj {[ "bindings" := JArr items ]} ]}.

Definition record (name location : string) (image : json) : castle :=
  <["image" := image]> (<["location" := JStr location]> {[ "name" := JStr name ]}).

Definition sample_statements : statements :=
  Statements
    "CREATE TABLE IF NOT EXISTS castles (name TEXT, location TEXT, image TEXT);"
    "DELETE FROM castles;"
    "INSERT INTO castles (name, location) VALUES (?, ?);"
    "INSERT INTO castles (name, location, image) VALUES (?, ?, ?);".

Definition sample_files (filename : string) : option string :=
  if String.eqb filename "createTable.sql" then
    Some (create_table_query sample_statements)
  else if String.eqb filename "deleteData.sql" then
    Some (delete_data_query sample_statements)
  else if String.eqb filename "insertCastleWithoutImage.sql" then
    Some (insert_without_image sample_statements)
  else if String.eqb filename "insertCastleImage.sql" then
    Some (insert_with_image sample_statements)
  else None.

(** An engine that knows the four sample statements and nothing else. *)
Definition sample_engine (query : string) (bound : list sqlval)
    (cur : list row) : option (list row) :=
  if String.eqb query (create_table_query sample_statements) then
    match bound with [] => Some cur | _ => None end
  else if String.eqb query (delete_data_query sample_statements) then
    match bound with [] => Some [] | _ => None end
  else if String.eqb query (insert_without_image sample_statements) then
    match bound with [n; l] => Some (cur ++ [(n, l, SqlNull)]) | _ => None end
  else if String.eqb query (insert_with_image sample_statements) then
    match bound with [n; l; i] => Some (cur ++ [(n, l, i)]) | _ => None end
  else None.



Definition empty_world : world := World [] [] false [] [] [].

Definition sample_castles : list castle :=
  [record "Caerphilly Castle" "Caerphilly" JNull;
   record "Conwy Castle" "Conwy" (JStr "http://x/img.jpg")].

(** A world left by an earlier run with other records. *)
Definition used_world : world :=
  World [] [] true [(SqlText "Harlech Castle", SqlText "Harlech", SqlNull)] [] [].

(** ** The record mapper *)

(** Case analysis on a subscript of the binding under study. *)
Ltac subscript m k :=
  let E := fresh "E" in
  destruct (m !! k) as [[]|] eqn:E; simpl; try done.

Lemma mapped_name (item : json) :
  mapped item !! "name" = Some (default JNull (variable_value item "itemLabel")).
Proof. unfold mapped. by simplify_map_eq. Qed.

Lemma mapped_location (item : json) :
  mapped item !! "location"
  = Some (default JNull (variable_value item "locationLabel")).
Proof. unfold mapped. by simplify_map_eq. Qed.

Lemma mapped_image (item : json) :
  mapped item !! "image" = Some (default JNull (variable_value item "image")).
Proof. unfold mapped. by simplify_map_eq. Qed.

(** The loop body succeeds exactly on well-formed bindings, and then
    appends the record of the binding. *)
Lemma append_castle_ok (castles : list castle) (item : json) :
  well_formed_binding item = true →
  append_castle castles item = Ok (castles ++ [mapped item]).
Proof.
  destruct item as [| | | | |fields]; try done.
  unfold well_formed_binding, append_castle, mapped; simpl.
  subscript fields "itemLabel".
  destruct (fields0 !! "value") as [name|] eqn:Ename; simpl; [|done].
  subscript fields "locationLabel".
  destruct (fields1 !! "value") as [location|] eqn:Elocation; simpl; [|done].
  destruct (fields !! "image") as [image|] eqn:Eimage; simpl; [|done].
  destruct image as [| | | | |fields2]; simpl; try done.
  destruct (fields2 !! "value") as [url|] eqn:Eurl; simpl; done.
Qed.

Lemma append_castle_inv (castles : list castle) (item : json) (r : list castle) :
  append_castle castles item = Ok r → well_formed_binding item = true.
Proof.
  destruct item as [| | | | |fields]; try done.
  unfold well_formed_binding, append_castle; simpl.
  subscript fields "itemLabel".
  destruct (fields0 !! "value") as [name|] eqn:Ename; simpl; [|done].
  subscript fields "locationLabel".
  destruct (fields1 !! "value") as [location|] eqn:Elocation; simpl; [|done].
  destruct (fields !! "image") as [image|] eqn:Eimage; simpl; [|done].
  destruct image as [| | | | |fields2]; simpl; try done.
  destruct (fields2 !! "value") as [url|] eqn:Eurl; simpl; done.
Qed.

(** Whatever the loop body raises is a failed subscript. *)
Lemma append_castle_raise (castles : list castle) (item : json) (e : exn) :
  append_castle castles item = Raise e → schema_violation e = true.
Proof.
  destruct item as [| | | | |fields]; simpl; try by intros [= <-].
  unfold append_castle; simpl.
  destruct (fields !! "itemLabel") as [label|]; simpl; [|by intros [= <-]].
  destruct label as [| | | | |fields0]; simpl; try by intros [= <-].
  destruct (fields0 !! "value") as [name|]; simpl; [|by intros [= <-]].
  destruct (fields !! "locationLabel") as [label|]; simpl; [|by intros [= <-]].
  destruct label as [| | | | |fields1]; simpl; try by intros [= <-].
  destruct (fields1 !! "value") as [location|]; simpl; [|by intros [= <-]].
  destruct (fields !! "image") as [image|]; simpl; [|done].
  destruct image as [| | | | |fields2]; simpl; try by intros [= <-].
  destruct (fields2 !! "value") as [url|]; simpl; [done|by intros [= <-]].
Qed.

Lemma for_each_append_castle (items : list json) (castles : list castle) :
  forallb well_formed_binding items = true →
  for_each append_castle items castles = Ok (castles ++ (mapped <$> items)).
Proof.
  revert castles.
  induction items as [|item items IH]; intros castles Hwf; simpl.
  - by rewrite app_nil_r.
  - apply andb_true_iff in Hwf as [Hitem Hitems].
    rewrite (append_castle_ok _ _ Hitem); simpl.
    rewrite (IH _ Hitems), <- app_assoc. done.
Qed.

Lemma for_each_append_castle_inv (items : list json) (castles r : list castle) :
  for_each append_castle items castles = Ok r →
  forallb well_formed_binding items = true.
Proof.
  revert castles.
  induction items as [|item items IH]; intros castles; simpl; [done|].
  destruct (append_castle castles item) as [castles'|e] eqn:E; simpl; [|done].
  intros Hrest. apply andb_true_iff. split.
  - eapply append_castle_inv, E.
  - eapply IH, Hrest.
Qed.

Lemma for_each_append_castle_raise (items : list json) (castles : list castle)
    (e : exn) :
  for_each append_castle items castles = Raise e → schema_violation e = true.
Proof.
  revert castles.
  induction items as [|item items IH]; intros castles; simpl; [done|].
  destruct (append_castle castles item) as [castles'|e'] eqn:E; simpl.
  - apply IH.
  - intros [= <-]. eapply append_castle_raise, E.
Qed.

Lemma get_castles_of_bindings (json_data : json) (items : list json) :
  bindings_of json_data = Some items →
  get_castles_from_json json_data = for_each append_castle items [].
Proof.
  destruct json_data as [| | | | |top]; try done.
  unfold bindings_of, get_castles_from_json; simpl.
  subscript top "results".
  subscript fields "bindings".
  by intros [= ->].
Qed.

Lemma characters_not_well_formed (s : string) :
  forallb well_formed_binding (characters s) = true → characters s = [].
Proof. by destruct s. Qed.

Lemma keys_not_well_formed (keys : list string) :
  forallb well_formed_binding (JStr <$> keys) = true → JStr <$> keys = [].
Proof. by destruct keys. Qed.

(** A result on which the mapper returns holds the records of the items it
    iterated over, all of them well-formed; these items are the binding
    list when [results.bindings] is an array, and there are none otherwise. *)
Lemma get_castles_inv (json_data : json) (castles : list castle) :
  get_castles_from_json json_data = Ok castles →
  ∃ items, castles = mapped <$> items
    ∧ forallb well_formed_binding items = true
    ∧ ∀ items0, bindings_of json_data = Some items0 → items0 = items.
Proof.
  destruct json_data as [| | | | |top]; try done.
  unfold bindings_of, get_castles_from_json; simpl.
  subscript top "results".
  destruct (fields !! "bindings") as [bindings|] eqn:Ebindings; simpl; [|done].
  destruct (iterate bindings) as [items|e] eqn:Eiter; simpl; [|done].
  intros Hloop.
  pose proof (for_each_append_castle_inv _ _ _ Hloop) as Hwf.
  rewrite (for_each_append_castle _ _ Hwf) in Hloop. injection Hloop as <-.
  destruct bindings as [| | |s|items0|keys]; simpl in Eiter; try done;
    injection Eiter as <-.
  - exists []. rewrite (characters_not_well_formed _ Hwf). done.
  - exists items0. split_and!; [done|done|]. by intros ? [= <-].
  - exists []. rewrite (keys_not_well_formed _ Hwf). done.
Qed.

(** C1: on a well-formed query result the mapper returns one record per
    binding, in the order of the bindings: the record at index [i] holds
    the [itemLabel], [locationLabel] and [image] values of the binding at
    index [i] ([None] for a binding without [image]); nothing is sorted,
    dropped or merged. *)
Theorem mapper_keeps_length_and_order (json_data : json) (items : list json) :
  bindings_of json_data = Some items →
  forallb well_formed_binding items = true →
  ∃ castles : list castle,
    get_castles_from_json json_data = Ok castles
    ∧ length castles = length items
    ∧ ∀ (i : nat) (item : json), items !! i = Some item →
        ∃ c : castle, castles !! i = Some c
          ∧ c !! "name" = variable_value item "itemLabel"
          ∧ c !! "location" = variable_value item "locationLabel"
          ∧ c !! "image" = Some (default JNull (variable_value item "image")).
Proof.
  intros Hbindings Hwf. exists (mapped <$> items).
  rewrite (get_castles_of_bindings _ _ Hbindings).
  rewrite (for_each_append_castle _ _ Hwf). split_and!; [done|by rewrite length_fmap|].
  intros i item Hi. exists (mapped item). split.
  - by rewrite list_lookup_fmap, Hi.
  - rewrite mapped_name, mapped_location, mapped_image.
    assert (well_formed_binding item = true) as Hitem.
    { rewrite forallb_forall in Hwf. apply Hwf, list_elem_of_In.
      eapply list_elem_of_lookup_2, Hi. }
    unfold well_formed_binding in Hitem.
    apply andb_true_iff in Hitem as [Hitem _].
    apply andb_true_iff in Hitem as [Hname Hlocation].
    apply bool_decide_eq_true in Hname as [name ->].
    apply bool_decide_eq_true in Hlocation as [location ->]. done.
Qed.

Lemma mapper_keeps_length_and_order_witness :
  ∃ castles : list castle,
    get_castles_from_json
      (response [binding "Caerphilly Castle" "Caerphilly" None;
                 binding "Conwy Castle" "Conwy" (Some "http://x/img.jpg")])
    = Ok castles
    ∧ length castles = 2%nat.
Proof.
  destruct (mapper_keeps_length_and_order
    (response [binding "Caerphilly Castle" "Caerphilly" None;
               binding "Conwy Castle" "Conwy" (Some "http://x/img.jpg")])
    [binding "Caerphilly Castle" "Caerphilly" None;
     binding "Conwy Castle" "Conwy" (Some "http://x/img.jpg")])
    as (castles & Hrun & Hlen & _).
  - vm_compute. reflexivity.
  - vm_compute. reflexivity.
  - exists castles. split; [exact Hrun|exact Hlen].
Defined.

Lemma well_formed_binding_labels (item : json) :
  well_formed_binding item = true →
  ∃ name location : json,
    variable_value item "itemLabel" = Some name
    ∧ variable_value item "locationLabel" = Some location
    ∧ has_variable item "itemLabel" = true
    ∧ has_variable item "locationLabel" = true.
Proof.
  unfold well_formed_binding. intros Hitem.
  apply andb_true_iff in Hitem as [Hitem _].
  apply andb_true_iff in Hitem as [Hname Hlocation].
  apply bool_decide_eq_true in Hname as [name Hname].
  apply bool_decide_eq_true in Hlocation as [location Hlocation].
  exists name, location. split_and!; try done.
  - destruct item as [| | | | |fields]; try done. simpl in *.
    destruct (fields !! "itemLabel"); [by apply bool_decide_eq_true|done].
  - destruct item as [| | | | |fields]; try done. simpl in *.
    destruct (fields !! "locationLabel"); [by apply bool_decide_eq_true|done].
Qed.

Lemma well_formed_binding_elem (items : list json) (item : json) :
  forallb well_formed_binding items = true → item ∈ items →
  well_formed_binding item = true.
Proof.
  intros Hwf Hin. rewrite forallb_forall in Hwf. by apply Hwf, list_elem_of_In.
Qed.

Lemma no_image_value (item : json) :
  has_variable item "image" = false → variable_value item "image" = None.
Proof.
  destruct item as [| | | | |fields]; try done. simpl.
  destruct (fields !! "image"); [|done].
  intros H. apply bool_decide_eq_false in H. by destruct H.
Qed.

(** C5: a binding list with a binding that lacks [itemLabel] or
    [locationLabel] makes the mapper raise the [KeyError] or [TypeError] of
    a failed subscript instead of returning records; in a list of
    well-formed bindings, a binding without [image] yields a record whose
    image is [None]. *)
Theorem mapper_schema_violation (json_data : json) (items : list json) :
  bindings_of json_data = Some items →
  (∀ item : json, item ∈ items →
     has_variable item "itemLabel" = false
     ∨ has_variable item "locationLabel" = false →
     ∃ e : exn, get_castles_from_json json_data = Raise e
       ∧ schema_violation e = true)
  ∧ (forallb well_formed_binding items = true →
     ∀ (i : nat) (item : json), items !! i = Some item →
       has_variable item "image" = false →
       ∃ (castles : list castle) (c : castle),
         get_castles_from_json json_data = Ok castles
         ∧ castles !! i = Some c
         ∧ c !! "image" = Some JNull).
Proof.
  intros Hbindings. rewrite (get_castles_of_bindings _ _ Hbindings). split.
  - intros item Hin Hlacks.
    destruct (for_each append_castle items []) as [castles|e] eqn:Hloop.
    + apply for_each_append_castle_inv in Hloop.
      pose proof (well_formed_binding_elem _ _ Hloop Hin) as Hitem.
      apply well_formed_binding_labels in Hitem as (? & ? & _ & _ & Hn & Hl).
      destruct Hlacks; congruence.
    + exists e. split; [done|]. eapply for_each_append_castle_raise, Hloop.
  - intros Hwf i item Hi Himage.
    exists (mapped <$> items), (mapped item).
    rewrite (for_each_append_castle _ _ Hwf). split_and!; [done| |].
    + by rewrite list_lookup_fmap, Hi.
    + by rewrite mapped_image, (no_image_value _ Himage).
Qed.

Lemma mapper_schema_violation_witness :
  (∃ e : exn,
     get_castles_from_json
       (response [binding "Conwy Castle" "Conwy" None;
                  JObj {[ "itemLabel" := cell "Harlech Castle" ]}])
     = Raise e ∧ schema_violation e = true)
  ∧ ∃ (castles : list castle) (c : castle),
      get_castles_from_json (response [binding "Conwy Castle" "Conwy" None])
      = Ok castles
      ∧ castles !! 0%nat = Some c ∧ c !! "image" = Some JNull.
Proof.
  split.
  - refine (proj1 (mapper_schema_violation
      (response [binding "Conwy Castle" "Conwy" None;
                 JObj {[ "itemLabel" := cell "Harlech Castle" ]}])
      [binding "Conwy Castle" "Conwy" None;
       JObj {[ "itemLabel" := cell "Harlech Castle" ]}] _)
      (JObj {[ "itemLabel" := cell "Harlech Castle" ]}) _ _).
    + vm_compute. reflexivity.
    + apply list_elem_of_In. simpl. right. left. reflexivity.
    + right. vm_compute. reflexivity.
  - refine (proj2 (mapper_schema_violation
      (response [binding "Conwy Castle" "Conwy" None])
      [binding "Conwy Castle" "Conwy" None] _) _
      0%nat (binding "Conwy Castle" "Conwy" None) _ _).
    + vm_compute. reflexivity.
    + vm_compute. reflexivity.
    + reflexivity.
    + vm_compute. reflexivity.
Defined.

(** C8, as stated, fails: the mapper validates nothing, so a well-formed
    result whose binding carries an empty [itemLabel] value and an image
    value that is no URL yields a record that breaks the invariant. *)
Lemma mapper_invariant_counterexample :
  ¬ (∀ (json_data : json) (castles : list castle),
       well_formed json_data = true →
       get_castles_from_json json_data = Ok castles →
       ∀ c : castle, c ∈ castles → castle_invariant c = true).
Proof.
  intros Hclaim.
  specialize (Hclaim (response [binding "" "Conwy" (Some "castle.jpg")])
                [record "" "Conwy" (JStr "castle.jpg")]).
  assert (castle_invariant (record "" "Conwy" (JStr "castle.jpg")) = true) as H.
  { apply Hclaim.
    - vm_compute. reflexivity.
    - vm_compute. reflexivity.
    - apply list_elem_of_In. left. reflexivity. }
  vm_compute in H. discriminate H.
Qed.

(** C8, amended: a record produced by the mapper carries the [itemLabel],
    [locationLabel] and [image] values of its binding unchanged, so it has a
    non-empty name and location and a syntactically valid image URL exactly
    when the values of its source binding are so. *)
Theorem mapper_copies_binding_values (json_data : json) (items : list json)
    (castles : list castle) :
  bindings_of json_data = Some items →
  get_castles_from_json json_data = Ok castles →
  ∀ (i : nat) (c : castle), castles !! i = Some c →
    ∃ item : json, items !! i = Some item
      ∧ c !! "name" = variable_value item "itemLabel"
      ∧ c !! "location" = variable_value item "locationLabel"
      ∧ c !! "image" = Some (default JNull (variable_value item "image"))
      ∧ castle_invariant c = binding_invariant item.
Proof.
  intros Hbindings Hrun i c Hc.
  apply get_castles_inv in Hrun as (items' & -> & Hwf & Hsame).
  rewrite <- (Hsame _ Hbindings) in *.
  rewrite list_lookup_fmap in Hc.
  destruct (items !! i) as [item|] eqn:Hi; [|done].
  injection Hc as <-. exists item. split; [done|].
  assert (well_formed_binding item = true) as Hitem.
  { eapply well_formed_binding_elem; [exact Hwf|].
    eapply list_elem_of_lookup_2, Hi. }
  apply well_formed_binding_labels in Hitem as (name & location & Hn & Hl & _).
  unfold castle_invariant, binding_invariant.
  rewrite mapped_name, mapped_location, mapped_image, Hn, Hl. done.
Qed.

Lemma mapper_copies_binding_values_witness :
  ∃ item : json,
    [binding "Conwy Castle" "Conwy" (Some "http://x/img.jpg")] !! 0%nat
    = Some item
    ∧ castle_invariant (record "Conwy Castle" "Conwy" (JStr "http://x/img.jpg"))
      = binding_invariant item.
Proof.
  destruct (mapper_copies_binding_values
    (response [binding "Conwy Castle" "Conwy" (Some "http://x/img.jpg")])
    [binding "Conwy Castle" "Conwy" (Some "http://x/img.jpg")]
    [record "Conwy Castle" "Conwy" (JStr "http://x/img.jpg")])
    with (i := 0%nat) (c := record "Conwy Castle" "Conwy" (JStr "http://x/img.jpg"))
    as (item & Hitem & _ & _ & _ & Hinv).
  - vm_compute. reflexivity.
  - vm_compute. reflexivity.
  - reflexivity.
  - exists item. split; [exact Hitem|exact Hinv].
Defined.

(** ** The console menu *)

Section ConsoleFacts.

Variable int : string → option Z.
Variable printable : Z → bool.

(** [int("")] raises [ValueError]: the loop is entered. *)
Hypothesis int_empty : int "" = None.

Lemma is_integer_empty : is_integer int "" = false.
Proof. unfold is_integer. by rewrite int_empty. Qed.

Lemma out_of_range_accepted (min_val max_val n : Z) :
  (n <? min_val)%Z || (n >? max_val)%Z
  = negb ((min_val <=? n)%Z && (n <=? max_val)%Z).
Proof.
  rewrite Z.gtb_ltb.
  destruct (Z.ltb_spec n min_val), (Z.ltb_spec max_val n),
    (Z.leb_spec min_val n), (Z.leb_spec n max_val); simpl; lia.
Qed.

(** An accepted line ends the loop with its value. *)
Lemma while_accept (prompt : string) (min_val max_val : Z) (inp line : string)
    (int_val : option Z) (rest : list string) (out : list output) (v : Z) :
  is_integer int inp = false → int line = Some v →
  (min_val ≤ v ≤ max_val)%Z →
  while_not_integer int printable prompt min_val max_val inp int_val
    (line :: rest) out
  = Ok (v, rest, out ++ [Shown prompt]).
Proof.
  intros Hinp Hline Hrange. simpl. rewrite Hinp.
  assert (is_integer int line = true) as Hint
    by (unfold is_integer; by rewrite Hline).
  rewrite Hint, Hline, out_of_range_accepted.
  destruct (Z.leb_spec min_val v), (Z.leb_spec v max_val); try lia. simpl.
  destruct rest; simpl; by rewrite Hint.
Qed.

(** A rejected line whose answer can be formatted leaves the loop running
    on the rest of the input. *)
Lemma while_reject (prompt : string) (min_val max_val : Z) (inp line : string)
    (int_val : option Z) (rest : list string) (out answer : list output) :
  is_integer int inp = false → accepted int min_val max_val line = false →
  rejection int printable prompt min_val max_val line = Some answer →
  ∃ (inp' : string) (int_val' : option Z),
    is_integer int inp' = false
    ∧ while_not_integer int printable prompt min_val max_val inp int_val
        (line :: rest) out
      = while_not_integer int printable prompt min_val max_val inp' int_val'
          rest (out ++ answer).
Proof.
  intros Hinp Hline Hanswer.
  unfold accepted, rejection in *.
  destruct (int line) as [n|] eqn:Hn.
  - exists EmptyString, (Some n). split; [apply is_integer_empty|].
    cbn [while_not_integer]. rewrite Hinp.
    assert (is_integer int line = true) as ->
      by (unfold is_integer; by rewrite Hn).
    rewrite Hn, out_of_range_accepted, Hline. cbn [negb].
    destruct (not_in_range printable n min_val max_val) as [text|]; [|done].
    injection Hanswer as <-. by rewrite <- app_assoc.
  - assert (is_integer int line = false) as Hint
      by (unfold is_integer; by rewrite Hn).
    injection Hanswer as <-.
    exists line, (Some (-1001)%Z). split; [done|].
    cbn [while_not_integer]. by rewrite Hinp, Hint.
Qed.

(** A rejected line whose answer cannot be formatted ends the loop in
    [ValueError]. *)
Lemma while_unprintable (prompt : string) (min_val max_val : Z)
    (inp line : string) (int_val : option Z) (rest : list string)
    (out : list output) :
  is_integer int inp = false → accepted int min_val max_val line = false →
  rejection int printable prompt min_val max_val line = None →
  while_not_integer int printable prompt min_val max_val inp int_val
    (line :: rest) out
  = Raise ValueError.
Proof.
  intros Hinp Hline Hanswer.
  unfold accepted, rejection in *.
  destruct (int line) as [n|] eqn:Hn; [|done].
  cbn [while_not_integer]. rewrite Hinp.
  assert (is_integer int line = true) as ->
    by (unfold is_integer; by rewrite Hn).
  rewrite Hn, out_of_range_accepted, Hline. cbn [negb].
  by destruct (not_in_range printable n min_val max_val).
Qed.

Lemma while_returns (prompt : string) (min_val max_val : Z)
    (rejected : list string) (answers : list (list output))
    (line : string) (rest : list string) (v : Z) :
  Forall (λ l, accepted int min_val max_val l = false) rejected →
  Forall2 (λ l a, rejection int printable prompt min_val max_val l = Some a)
    rejected answers →
  int line = Some v → (min_val ≤ v ≤ max_val)%Z →
  ∀ (inp : string) (int_val : option Z) (out : list output),
    is_integer int inp = false →
    while_not_integer int printable prompt min_val max_val inp int_val
      (rejected ++ line :: rest) out
    = Ok (v, rest, out ++ concat answers ++ [Shown prompt]).
Proof.
  intros Hrejected Hanswers Hline Hrange.
  induction Hanswers as [|l a rejected answers Ha _ IH];
    intros inp int_val out Hinp.
  - by apply while_accept.
  - apply Forall_cons in Hrejected as [Hl Hrejected].
    destruct (while_reject prompt min_val max_val inp l int_val
                (rejected ++ line :: rest) out a Hinp Hl Ha)
      as (inp' & int_val' & Hinp' & Hstep).
    rewrite <- app_comm_cons, Hstep, (IH Hrejected _ _ _ Hinp'). simpl.
    by rewrite <- !app_assoc.
Qed.

Lemma while_inv (prompt : string) (min_val max_val : Z) (lines : list string) :
  ∀ (inp : string) (int_val : option Z) (out : list output)
    (v : Z) (rest : list string) (out' : list output),
    is_integer int inp = false →
    while_not_integer int printable prompt min_val max_val inp int_val lines out
    = Ok (v, rest, out') →
    ∃ (rejected : list string) (answers : list (list output)) (line : string),
      lines = rejected ++ line :: rest
      ∧ int line = Some v
      ∧ (min_val ≤ v ≤ max_val)%Z
      ∧ Forall (λ l, accepted int min_val max_val l = false) rejected
      ∧ Forall2
          (λ l a, rejection int printable prompt min_val max_val l = Some a)
          rejected answers
      ∧ out' = out ++ concat answers ++ [Shown prompt].
Proof.
  induction lines as [|l lines IH]; intros inp int_val out v rest out' Hinp Hrun.
  - simpl in Hrun. by rewrite Hinp in Hrun.
  - destruct (accepted int min_val max_val l) eqn:Hl.
    + unfold accepted in Hl. destruct (int l) as [n|] eqn:Hn; [|done].
      apply andb_true_iff in Hl as [Hmin Hmax].
      apply Z.leb_le in Hmin, Hmax.
      rewrite (while_accept _ _ _ _ _ _ _ _ n Hinp Hn) in Hrun by lia.
      injection Hrun as <- <- <-.
      exists [], [], l. split_and!; done || lia || constructor.
    + destruct (rejection int printable prompt min_val max_val l)
        as [a|] eqn:Ha.
      * destruct (while_reject prompt min_val max_val inp l int_val lines out a
                    Hinp Hl Ha) as (inp' & int_val' & Hinp' & Hstep).
        rewrite Hstep in Hrun.
        apply IH in Hrun
          as (rejected & answers & line & -> & Hline & Hrange & Hrej & Hans & ->);
          [|done].
        exists (l :: rejected), (a :: answers), line.
        split_and!; [done|done|lia|lia| | |].
        -- by constructor.
        -- by constructor.
        -- simpl. by rewrite <- !app_assoc.
      * by rewrite (while_unprintable _ _ _ _ _ _ _ _ Hinp Hl Ha) in Hrun.
Qed.

(** When no line is accepted the loop ends in [EOFError], or in
    [ValueError] at the first line whose answer cannot be formatted. *)
Lemma while_all_rejected (prompt : string) (min_val max_val : Z)
    (lines : list string) :
  Forall (λ l, accepted int min_val max_val l = false) lines →
  ∀ (inp : string) (int_val : option Z) (out : list output),
    is_integer int inp = false →
    while_not_integer int printable prompt min_val max_val inp int_val lines out
    = Raise (if forallb
                  (λ l, bool_decide
                          (is_Some (rejection int printable prompt min_val
                                      max_val l))) lines
             then EOFError else ValueError).
Proof.
  induction 1 as [|l lines Hl _ IH]; intros inp int_val out Hinp.
  - simpl. by rewrite Hinp.
  - cbn [forallb].
    destruct (rejection int printable prompt min_val max_val l) as [a|] eqn:Ha.
    + destruct (while_reject prompt min_val max_val inp l int_val lines out a
                  Hinp Hl Ha) as (inp' & int_val' & Hinp' & ->).
      rewrite bool_decide_eq_true_2 by (by eexists). simpl. by apply IH.
    + rewrite bool_decide_eq_false_2 by (by intros [? ?]). simpl.
      by apply while_unprintable.
Qed.

Lemma empty_range_rejects (min_val max_val : Z) (line : string) :
  (max_val < min_val)%Z → accepted int min_val max_val line = false.
Proof.
  intros Hempty. unfold accepted. destruct (int line) as [n|]; [|done].
  destruct (Z.leb_spec min_val n), (Z.leb_spec n max_val); simpl; try done. lia.
Qed.

End ConsoleFacts.

Lemma ascii_int_empty : ascii_int "" = None.
Proof. by vm_compute. Qed.

(** C7, as stated, fails: a line that is not an integer is rejected
    without any diagnostic, so the diagnostics printed do not count the
    rejected lines.  On the lines "abc", "3" with bounds 1 and 5 one line is
    rejected and nothing is printed. *)
Lemma diagnostic_counterexample :
  ¬ (∀ (int : string → option Z) (printable : Z → bool)
       (prompt : string) (min_val max_val : Z) (lines : list string)
       (v : Z) (rest : list string) (out' : list output),
       int "" = None →
       get_integer_input_in_range int printable prompt min_val max_val lines []
       = Ok (v, rest, out') →
       length (List.filter is_diagnostic out')
       = (length lines - length rest - 1)%nat).
Proof.
  intros Hclaim.
  specialize (Hclaim ascii_int within_limit "Enter an integer: " 1%Z 5%Z
                ["abc"; "3"] 3%Z []
                [Shown "Enter an integer: "; Shown "Enter an integer: "]).
  assert (0 = 1)%nat as H by (apply Hclaim; vm_compute; reflexivity).
  discriminate H.
Qed.

(** C7, amended: whenever [get_integer_input_in_range] returns, its result
    [v] satisfies [min_val <= v <= max_val] and is the integer parsed from
    the input line it stopped at; every line before that one was either no
    integer or out of range, and was answered by a new prompt, preceded by
    the out-of-range diagnostic when (and only when) the line was an
    integer: a line that is not an integer gets no diagnostic.  On the
    lines "abc", "-5", "3" with bounds 1 and 5 the result is 3.  This holds
    whatever [int] accepts and whatever the interpreter formats, as long as
    [int("")] fails. *)
Theorem bounded_integer_result :
  (∀ (int : string → option Z) (printable : Z → bool)
     (prompt : string) (min_val max_val : Z) (lines : list string)
     (out : list output) (v : Z) (rest : list string) (out' : list output),
     int "" = None →
     get_integer_input_in_range int printable prompt min_val max_val lines out
     = Ok (v, rest, out') →
     (min_val ≤ v ≤ max_val)%Z
     ∧ ∃ (rejected : list string) (answers : list (list output))
         (line : string),
         lines = rejected ++ line :: rest
         ∧ int line = Some v
         ∧ Forall (λ l, accepted int min_val max_val l = false) rejected
         ∧ Forall2
             (λ l a, rejection int printable prompt min_val max_val l = Some a)
             rejected answers
         ∧ out' = out ++ concat answers ++ [Shown prompt])
  ∧ (∀ (int : string → option Z) (printable : Z → bool),
       int "" = None → int "abc" = None →
       int "-5" = Some (-5)%Z → int "3" = Some 3%Z →
       printable (-5)%Z = true → printable 1%Z = true → printable 5%Z = true →
       get_integer_input_in_range int printable "Enter an integer: " 1 5
         ["abc"; "-5"; "3"] []
       = Ok (3%Z, [],
             [Shown "Enter an integer: ";
              Shown "Enter an integer: "; Printed "-5 not in range 1 - 5";
              Shown "Enter an integer: "])).
Proof.
  split.
  - intros int printable prompt min_val max_val lines out v rest out' Hempty Hrun.
    apply (while_inv int printable Hempty) in Hrun
      as (rejected & answers & line & ? & ? & ? & ? & ? & ?);
      [|by apply is_integer_empty].
    split; [done|]. by exists rejected, answers, line.
  - intros int printable Hempty Habc Hminus Hthree Hp5 Hp1 Hp.
    apply (while_returns int printable Hempty "Enter an integer: " 1 5
             ["abc"; "-5"] [[Shown "Enter an integer: "];
                            [Shown "Enter an integer: ";
                             Printed "-5 not in range 1 - 5"]]
             "3" [] 3).
    + repeat constructor; unfold accepted; by rewrite ?Habc, ?Hminus.
    + repeat constructor; unfold rejection, not_in_range, str.
      * by rewrite Habc.
      * by rewrite Hminus, Hp5, Hp1, Hp.
    + done.
    + lia.
    + by apply is_integer_empty.
Qed.

Lemma bounded_integer_result_witness :
  (1 ≤ 4 ≤ 5)%Z
  ∧ ∃ (rejected : list string) (answers : list (list output)) (line : string),
      ["7"; "x"; "4"; "2"] = rejected ++ line :: ["2"]
      ∧ ascii_int line = Some 4%Z
      ∧ Forall (λ l, accepted ascii_int 1 5 l = false) rejected
      ∧ Forall2
          (λ l a, rejection ascii_int within_limit "? " 1 5 l = Some a)
          rejected answers
      ∧ [Shown "? "; Printed "7 not in range 1 - 5"; Shown "? "; Shown "? "]
        = [] ++ concat answers ++ [Shown "? "].
Proof.
  apply (proj1 bounded_integer_result ascii_int within_limit "? " 1%Z 5%Z
           ["7"; "x"; "4"; "2"] [] 4%Z ["2"]
           [Shown "? "; Printed "7 not in range 1 - 5"; Shown "? "; Shown "? "]).
  - vm_compute. reflexivity.
  - vm_compute. reflexivity.
Defined.

(** C10, as stated, fails in its last part: an out-of-range integer line
    is answered by a message that formats both bounds, and the interpreter
    refuses to format an integer of more than 4300 digits.  With bounds 0
    and 10^4300 the line "-1" ends the call in [ValueError], although the
    next line, "5", lies within the bounds. *)
Lemma formatting_counterexample :
  ¬ (∀ (int : string → option Z) (printable : Z → bool)
       (prompt : string) (min_val max_val : Z) (rejected : list string)
       (line : string) (rest : list string) (out : list output) (v : Z),
       int "" = None →
       (min_val ≤ max_val)%Z →
       Forall (λ l, accepted int min_val max_val l = false) rejected →
       int line = Some v → (min_val ≤ v ≤ max_val)%Z →
       ∃ out' : list output,
         get_integer_input_in_range int printable prompt min_val max_val
           (rejected ++ line :: rest) out
         = Ok (v, rest, out')).
Proof.
  intros Hclaim.
  destruct (Hclaim ascii_int within_limit "? " 0%Z unprintable_bound
              ["-1"] "5" [] [] 5%Z) as [out' Hrun].
  - by vm_compute.
  - by vm_compute.
  - repeat constructor.
  - by vm_compute.
  - split; by vm_compute.
  - vm_compute in Hrun. discriminate Hrun.
Qed.

(** C10, amended: with [max_val < min_val] the loop rejects every line, so
    on every sequence of input lines the call never returns: it is still
    asking when the input ends ([input] raises [EOFError]), unless an
    integer line came whose out-of-range message cannot be formatted
    ([ValueError]); so does [get_option_from_list] on an empty list, whose
    bounds are 1 and 0.  When the input supplies a line that parses to an
    integer within the bounds (which makes [min_val <= max_val]) and the
    out-of-range message of every integer line before it can be formatted,
    the call returns that integer at the first such line and leaves the
    lines after it unread. *)
Theorem bounded_integer_termination :
  (∀ (int : string → option Z) (printable : Z → bool)
     (prompt : string) (min_val max_val : Z) (lines : list string)
     (out : list output),
     int "" = None →
     (max_val < min_val)%Z →
     get_integer_input_in_range int printable prompt min_val max_val lines out
     = Raise (if forallb
                   (λ l, bool_decide
                           (is_Some (rejection int printable prompt min_val
                                       max_val l))) lines
              then EOFError else ValueError))
  ∧ (∀ (int : string → option Z) (printable : Z → bool)
       (lines : list string) (out : list output),
       int "" = None →
       ∃ e : exn,
         get_option_from_list int printable [] lines out = Raise e
         ∧ (e = EOFError ∨ e = ValueError))
  ∧ (∀ (int : string → option Z) (printable : Z → bool)
       (prompt : string) (min_val max_val : Z) (rejected : list string)
       (answers : list (list output))
       (line : string) (rest : list string) (out : list output) (v : Z),
       int "" = None →
       (min_val ≤ max_val)%Z →
       Forall (λ l, accepted int min_val max_val l = false) rejected →
       Forall2
         (λ l a, rejection int printable prompt min_val max_val l = Some a)
         rejected answers →
       int line = Some v → (min_val ≤ v ≤ max_val)%Z →
       get_integer_input_in_range int printable prompt min_val max_val
         (rejected ++ line :: rest) out
       = Ok (v, rest, out ++ concat answers ++ [Shown prompt])).
Proof.
  split_and!.
  - intros int printable prompt min_val max_val lines out Hempty Hrange.
    apply (while_all_rejected int printable Hempty);
      [|by apply is_integer_empty].
    apply Forall_forall. intros l _. by apply empty_range_rejects.
  - intros int printable lines out Hempty.
    unfold get_option_from_list, get_integer_input_in_range.
    rewrite (while_all_rejected int printable Hempty);
      [| |by apply is_integer_empty].
    + simpl. eexists. split; [done|]. by destruct (forallb _ _); [left|right].
    + apply Forall_forall. intros l _. by apply empty_range_rejects.
  - intros int printable prompt min_val max_val rejected answers line rest out v
      Hempty _ Hrej Hans Hline Hrange.
    apply (while_returns int printable Hempty); try done.
    by apply is_integer_empty.
Qed.

Lemma bounded_integer_termination_witness :
  get_integer_input_in_range ascii_int within_limit "? " 1 0 ["1"; "0"; "x"] []
  = Raise EOFError
  ∧ get_integer_input_in_range ascii_int within_limit "? " 1 2
      (["0"; "x"] ++ "2" :: ["1"]) []
    = Ok (2%Z, ["1"],
          [] ++ concat [[Shown "? "; Printed "0 not in range 1 - 2"];
                        [Shown "? "]] ++ [Shown "? "]).
Proof.
  split.
  - refine (proj1 bounded_integer_termination ascii_int within_limit "? "
              1%Z 0%Z ["1"; "0"; "x"] [] _ _).
    + vm_compute. reflexivity.
    + lia.
  - apply (proj2 (proj2 bounded_integer_termination) ascii_int within_limit).
    + vm_compute. reflexivity.
    + lia.
    + repeat constructor.
    + repeat constructor; vm_compute; reflexivity.
    + vm_compute. reflexivity.
    + lia.
Defined.

(** ** Option 0: the random download *)

Lemma mapped_has_keys (item : json) : has_keys (mapped item).
Proof.
  unfold has_keys. rewrite mapped_name, mapped_location, mapped_image.
  split_and!; by eexists.
Qed.

Lemma mapper_has_keys (json_data : json) (castles : list castle) :
  get_castles_from_json json_data = Ok castles → Forall has_keys castles.
Proof.
  intros Hrun. apply get_castles_inv in Hrun as (items & -> & _ & _).
  apply Forall_fmap, Forall_forall. intros item _. apply mapped_has_keys.
Qed.

Lemma castle_get_field (c : castle) (key : string) :
  is_Some (c !! key) → castle_get c key = Ok (field c key).
Proof. intros [v Hv]. unfold castle_get, field. by rewrite Hv. Qed.

(** The comprehension keeps, in order, the records whose image is not
    [None]. *)
Lemma keep_with_image_filter (castles kept : list castle) :
  Forall has_keys castles →
  for_each keep_with_image castles kept
  = Ok (kept ++ List.filter has_image castles).
Proof.
  intros Hkeys. revert kept.
  induction Hkeys as [|c castles (_ & _ & [image Himage]) _ IH]; intros kept.
  - simpl. by rewrite app_nil_r.
  - assert (keep_with_image kept c
            = Ok (if is_not_none image then kept ++ [c] else kept)) as Hstep
      by (unfold keep_with_image, castle_get; by rewrite Himage).
    cbn [for_each List.filter]. rewrite Hstep. cbn [mbind result_bind].
    rewrite IH. unfold has_image. rewrite Himage.
    destruct (is_not_none image); [|done].
    by rewrite <- app_assoc.
Qed.

Lemma choice_elem {A : Type} (draw : nat) (seq : list A) :
  seq ≠ [] → ∃ x : A, choice draw seq = Ok x ∧ x ∈ seq.
Proof.
  intros Hne. unfold choice.
  destruct (seq !! (draw mod length seq)%nat) as [x|] eqn:Hx.
  - exists x. split; [done|]. eapply list_elem_of_lookup_2, Hx.
  - apply lookup_ge_None in Hx.
    assert (length seq ≠ 0)%nat by (by destruct seq).
    pose proof (Nat.mod_upper_bound draw (length seq)). lia.
Qed.

Lemma choice_raise {A : Type} (draw : nat) (seq : list A) (e : exn) :
  choice draw seq = Raise e → e = IndexError.
Proof.
  unfold choice. destruct (seq !! (draw mod length seq)%nat); [done|].
  by intros [= <-].
Qed.

Lemma elem_of_filter_has_image (castles : list castle) (c : castle) :
  c ∈ List.filter has_image castles ↔ c ∈ castles ∧ has_image c = true.
Proof. rewrite !list_elem_of_In. apply filter_In. Qed.

(** [main] up to the menu: with option 0 it runs the random download,
    with option 1 the persistence run, on the mapped records. *)
Lemma main_option_0
    (read_file : string → option string) (wikidata : string → result json)
    (cursor_execute : string → list sqlval → list row → option (list row))
    (draw : nat) (int : string → option Z) (printable : Z → bool)
    (http_get : string → option string) (can_write : string → bool)
    (query : string) (json_data : json) (castles : list castle)
    (w : world) (lines : list string) (out : list output) :
  read_file "wikidata_query.rq" = Some query →
  wikidata query = Ok json_data →
  get_castles_from_json json_data = Ok castles →
  get_option_from_list int printable options (stdin w) (stdout w)
  = Ok (0%Z, lines, out) →
  main read_file wikidata cursor_execute draw int printable http_get can_write w
  = download_random_castle http_get can_write draw castles
      (set_console lines out w).
Proof.
  intros Hquery Hdata Hcastles Hoption.
  unfold main, get_query, get_wikidata_from_sparql_as_json.
  rewrite Hquery. simpl. rewrite Hdata. simpl. rewrite Hcastles. simpl.
  rewrite Hoption. simpl.
  by destruct (download_random_castle http_get can_write draw castles
                 (set_console lines out w)).
Qed.


(** C6: in option 0, when some mapped record has an image, the candidates
    of the random choice are exactly the records whose image is not [None],
    in their order, every one of them can be drawn, and whatever the
    generator draws, the record chosen, printed and downloaded is one of the
    mapped records and has an image; this is what [main] does when the menu
    returns option 0. *)
Theorem random_castle_has_image (json_data : json) (castles : list castle) :
  get_castles_from_json json_data = Ok castles →
  (∃ c : castle, c ∈ castles ∧ has_image c = true) →
  for_each keep_with_image castles [] = Ok (List.filter has_image castles)
  ∧ (∀ c : castle, c ∈ castles → has_image c = true →
       ∃ draw : nat, pick_random_castle draw castles = Ok c)
  ∧ ∀ draw : nat, ∃ c : castle,
      pick_random_castle draw castles = Ok c
      ∧ c ∈ castles
      ∧ has_image c = true
      ∧ (∀ (http_get : string → option string) (can_write : string → bool)
           (w : world),
           download_random_castle http_get can_write draw castles w
           = download_wikimedia_commons_image http_get can_write
               (field c "image") (write (PrettyPrinted c) w))
      ∧ ∀ (read_file : string → option string) (wikidata : string → result json)
          (cursor_execute : string → list sqlval → list row → option (list row))
          (int : string → option Z) (printable : Z → bool)
          (http_get : string → option string) (can_write : string → bool)
          (query : string) (w : world) (lines : list string) (out : list output),
          read_file "wikidata_query.rq" = Some query →
          wikidata query = Ok json_data →
          get_option_from_list int printable options (stdin w) (stdout w)
          = Ok (0%Z, lines, out) →
          main read_file wikidata cursor_execute draw int printable http_get
            can_write w
          = download_wikimedia_commons_image http_get can_write
              (field c "image")
              (write (PrettyPrinted c) (set_console lines out w)).
Proof.
  intros Hrun (c0 & Hc0 & Himage0).
  pose proof (mapper_has_keys _ _ Hrun) as Hkeys.
  pose proof (keep_with_image_filter castles [] Hkeys) as Hfilter.
  simpl in Hfilter. split_and!; [done| |].
  - intros c Hc Himage.
    assert (c ∈ List.filter has_image castles) as Hin
      by (by apply elem_of_filter_has_image).
    apply list_elem_of_lookup in Hin as [i Hi].
    exists i. unfold pick_random_castle. rewrite Hfilter. simpl.
    unfold choice. apply lookup_lt_Some in Hi as Hlt.
    by rewrite Nat.mod_small, Hi.
  - intros draw.
    destruct (choice_elem draw (List.filter has_image castles)) as (c & Hc & Hin).
    { intros Hnil.
      assert (c0 ∈ List.filter has_image castles) as H
        by (by apply elem_of_filter_has_image).
      rewrite Hnil in H. by apply elem_of_nil in H. }
    apply elem_of_filter_has_image in Hin as [Hin Himage].
    assert (∀ (http_get : string → option string)
              (can_write : string → bool) (w : world),
              download_random_castle http_get can_write draw castles w
              = download_wikimedia_commons_image http_get can_write
                  (field c "image") (write (PrettyPrinted c) w)) as Hdownload.
    { intros http_get can_write w.
      unfold download_random_castle, pick_random_castle.
      rewrite Hfilter. simpl. rewrite Hc. simpl.
      rewrite castle_get_field; [done|].
      rewrite Forall_forall in Hkeys. by apply Hkeys. }
    exists c. unfold pick_random_castle.
    rewrite Hfilter. simpl. rewrite Hc. split_and!; try done.
    intros read_file wikidata cursor_execute int printable http_get can_write
      query w lines out Hquery Hdata Hopt.
    rewrite (main_option_0 read_file wikidata cursor_execute draw int printable
               http_get can_write query json_data castles w lines out
               Hquery Hdata Hrun Hopt).
    apply Hdownload.
Qed.

Lemma random_castle_has_image_witness :
  ∃ c : castle,
    pick_random_castle 7
      [record "Caerphilly Castle" "Caerphilly" JNull;
       record "Conwy Castle" "Conwy" (JStr "http://x/img.jpg");
       record "Harlech Castle" "Harlech" (JStr "http://x/harlech.jpg")]
    = Ok c
    ∧ has_image c = true.
Proof.
  assert (get_castles_from_json
            (response [binding "Caerphilly Castle" "Caerphilly" None;
                       binding "Conwy Castle" "Conwy" (Some "http://x/img.jpg");
                       binding "Harlech Castle" "Harlech"
                         (Some "http://x/harlech.jpg")])
          = Ok [record "Caerphilly Castle" "Caerphilly" JNull;
                record "Conwy Castle" "Conwy" (JStr "http://x/img.jpg");
                record "Harlech Castle" "Harlech" (JStr "http://x/harlech.jpg")])
    as Hrun by (vm_compute; reflexivity).
  assert (∃ c : castle,
            c ∈ [record "Caerphilly Castle" "Caerphilly" JNull;
                 record "Conwy Castle" "Conwy" (JStr "http://x/img.jpg");
                 record "Harlech Castle" "Harlech" (JStr "http://x/harlech.jpg")]
            ∧ has_image c = true) as Hsome.
  { exists (record "Conwy Castle" "Conwy" (JStr "http://x/img.jpg")). split.
    - apply list_elem_of_In. right. left. reflexivity.
    - vm_compute. reflexivity. }
  destruct (proj2 (proj2 (random_castle_has_image _ _ Hrun Hsome)) 7%nat)
    as (c & Hpick & _ & Himage & _ & _).
  exists c. split; [exact Hpick|exact Himage].
Defined.

(** ** Option 1: the persistence run *)

Section Persistence.

Variable read_file : string → option string.
Variable cursor_execute : string → list sqlval → list row → option (list row).
Variable s : statements.

Lemma adapt_all_raise (parameters : list json) (e : exn) :
  adapt_all parameters = Raise e → e = DatabaseError.
Proof.
  induction parameters as [|v parameters IH]; simpl; [done|].
  destruct (adapt v) as [b|e'] eqn:Hv; simpl.
  - destruct (adapt_all parameters); simpl; [done|].
    intros [= <-]. by apply IH.
  - intros [= <-]. destruct v as [| |n| | |]; simpl in Hv; try congruence.
    destruct (_ && _) in Hv; congruence.
Qed.

Lemma run_statement_raise (cur : list row) (call : string * list json) (e : exn) :
  run_statement cursor_execute cur call = Raise e → e = DatabaseError.
Proof.
  unfold run_statement.
  destruct (adapt_all call.2) as [bound|e'] eqn:Hbound; simpl.
  - destruct (cursor_execute _ _ _); [done|]. by intros [= <-].
  - intros [= <-]. eapply adapt_all_raise, Hbound.
Qed.

Lemma run_statement_nil (cur cur' : list row) (query : string) :
  run_statement cursor_execute cur (query, []) = Ok cur' →
  cursor_execute query [] cur = Some cur'.
Proof.
  unfold run_statement. simpl.
  destruct (cursor_execute query [] cur); [by intros [= <-]|done].
Qed.

(** The effect on the table and the effect on the world are independent. *)
Lemma execute_sqlite_query_split (cur : list row) (query : string)
    (parameters : list json) (w : world) :
  execute_sqlite_query cursor_execute cur query parameters w
  = cur' ← run_statement cursor_execute cur (query, parameters);
    Ok (cur', echo (query, parameters) w).
Proof.
  unfold execute_sqlite_query, execute, run_statement, echo.
  destruct parameters as [|v parameters]; simpl.
  - by destruct (cursor_execute query [] cur).
  - destruct (adapt v); simpl; [|done].
    destruct (adapt_all parameters); simpl; [|done].
    by destruct (cursor_execute _ _ _).
Qed.

(** On a record with its three fields the loop body runs the call chosen
    by the truth value of the image. *)
Lemma insert_castle_keys (cur : list row) (w : world) (c : castle) :
  has_keys c →
  insert_castle cursor_execute (insert_without_image s, insert_with_image s)
    (cur, w) c
  = cur' ← run_statement cursor_execute cur (insert_call s c);
    Ok (cur', echo (insert_call s c) w).
Proof.
  intros (Hname & Hlocation & Himage).
  unfold insert_castle, insert_call.
  rewrite (castle_get_field c "image" Himage),
    (castle_get_field c "name" Hname),
    (castle_get_field c "location" Hlocation). simpl.
  destruct (truthy (field c "image")); simpl;
    apply execute_sqlite_query_split.
Qed.

(** On any other record it raises [KeyError]. *)
Lemma insert_castle_no_keys (cur : list row) (w : world) (c : castle) :
  ¬ has_keys c →
  ∃ key : string,
    insert_castle cursor_execute (insert_without_image s, insert_with_image s)
      (cur, w) c
    = Raise (KeyError key).
Proof.
  intros Hkeys. unfold insert_castle, castle_get.
  destruct (c !! "image") as [image|] eqn:Himage; simpl; [|by eexists].
  destruct (c !! "name") as [name|] eqn:Hname; simpl;
    [|destruct (truthy image); by eexists].
  destruct (c !! "location") as [location|] eqn:Hlocation; simpl;
    [|destruct (truthy image); by eexists].
  destruct Hkeys. unfold has_keys. rewrite Hname, Hlocation, Himage.
  split_and!; by eexists.
Qed.

Lemma has_keys_dec (c : castle) : has_keys c ∨ ¬ has_keys c.
Proof.
  unfold has_keys.
  destruct (c !! "name"), (c !! "location"), (c !! "image");
    try (left; split_and!; by eexists);
    right; intros (H1 & H2 & H3);
    by (apply is_Some_None in H1 || apply is_Some_None in H2
        || apply is_Some_None in H3).
Qed.

Lemma echo_executed (call : string * list json) (w : world) :
  executed (echo call w) = executed w ++ [call].
Proof. destruct call as [query [|v parameters]]; done. Qed.

Lemma echo_state (call : string * list json) (w : world) :
  stdin (echo call w) = stdin w ∧ table (echo call w) = table w
  ∧ db_exists (echo call w) = db_exists w ∧ fetched (echo call w) = fetched w.
Proof. destruct call as [query [|v parameters]]; done. Qed.

(** A completed insert loop met records with all their fields, logged one
    call per record in order, and touched nothing but the console, the log
    and the connection's view of the table. *)
Lemma insert_loop_inv (castles : list castle) :
  ∀ (cur : list row) (w : world) (cur' : list row) (w' : world),
    for_each
      (insert_castle cursor_execute (insert_without_image s, insert_with_image s))
      castles (cur, w)
    = Ok (cur', w') →
    Forall has_keys castles
    ∧ for_each (run_statement cursor_execute) (insert_call s <$> castles) cur
      = Ok cur'
    ∧ executed w' = executed w ++ (insert_call s <$> castles)
    ∧ db_exists w' = db_exists w.
Proof.
  induction castles as [|c castles IH]; intros cur w cur' w'.
  - simpl. intros [= <- <-]. by rewrite app_nil_r.
  - cbn [for_each fmap list_fmap].
    destruct (has_keys_dec c) as [Hkeys|Hkeys].
    + rewrite (insert_castle_keys _ _ _ Hkeys).
      destruct (run_statement cursor_execute cur (insert_call s c))
        as [cur1|e]; simpl; [|done].
      intros Hrest. apply IH in Hrest as (Hall & Hrows & Hlog & Hdb).
      split_and!; [by constructor|done| |].
      * by rewrite Hlog, echo_executed, <- app_assoc.
      * rewrite Hdb. apply echo_state.
    + destruct (insert_castle_no_keys cur w c Hkeys) as [key ->]. done.
Qed.

(** Whether the loop completes, and with which rows, depends on the
    table only. *)
Lemma insert_loop_rows (castles : list castle) :
  ∀ (cur : list row) (w : world) (cur' : list row),
    Forall has_keys castles →
    for_each (run_statement cursor_execute) (insert_call s <$> castles) cur
    = Ok cur' →
    ∃ w' : world,
      for_each
        (insert_castle cursor_execute
           (insert_without_image s, insert_with_image s))
        castles (cur, w)
      = Ok (cur', w').
Proof.
  induction castles as [|c castles IH]; intros cur w cur' Hkeys.
  - simpl. intros [= <-]. by eexists.
  - apply Forall_cons in Hkeys as [Hc Hkeys].
    cbn [for_each fmap list_fmap]. rewrite (insert_castle_keys _ _ _ Hc).
    destruct (run_statement cursor_execute cur (insert_call s c))
      as [cur1|e]; simpl; [|done].
    by apply IH.
Qed.

Lemma insert_loop_raise (castles : list castle) :
  ∀ (cur : list row) (w : world) (e : exn),
    Forall has_keys castles →
    for_each
      (insert_castle cursor_execute (insert_without_image s, insert_with_image s))
      castles (cur, w)
    = Raise e →
    e = DatabaseError.
Proof.
  induction castles as [|c castles IH]; intros cur w e Hkeys; [done|].
  apply Forall_cons in Hkeys as [Hc Hkeys].
  cbn [for_each]. rewrite (insert_castle_keys _ _ _ Hc).
  destruct (run_statement cursor_execute cur (insert_call s c))
    as [cur1|e'] eqn:Hrun; simpl.
  - by apply IH.
  - intros [= <-]. eapply run_statement_raise, Hrun.
Qed.

(** The persistence run, statement by statement. *)
Lemma populate_table_run (castles : list castle) (w : world) :
  populate_table read_file cursor_execute castles w
  = create_table_query ← get_query read_file "createTable.sql";
    cur ← run_statement cursor_execute (table (opened w)) (create_table_query, []);
    delete_data_query ← get_query read_file "deleteData.sql";
    cur ← run_statement cursor_execute cur (delete_data_query, []);
    without_image ← get_query read_file "insertCastleWithoutImage.sql";
    with_image ← get_query read_file "insertCastleImage.sql";
    '(cur, w) ← for_each (insert_castle cursor_execute (without_image, with_image))
                  castles
                  (cur, echo (delete_data_query, [])
                          (echo (create_table_query, []) (opened w)));
    Ok (commit cur w).
Proof.
  unfold populate_table. fold (opened w).
  destruct (get_query read_file "createTable.sql") as [qc|]; simpl; [|done].
  rewrite execute_sqlite_query_split.
  destruct (run_statement cursor_execute (table (opened w)) (qc, []))
    as [cur0|]; simpl; [|done].
  destruct (get_query read_file "deleteData.sql") as [qd|]; simpl; [|done].
  rewrite execute_sqlite_query_split.
  destruct (run_statement cursor_execute cur0 (qd, [])) as [cur1|]; simpl; done.
Qed.

Lemma get_query_loads :
  loads read_file s →
  get_query read_file "createTable.sql" = Ok (create_table_query s)
  ∧ get_query read_file "deleteData.sql" = Ok (delete_data_query s)
  ∧ get_query read_file "insertCastleWithoutImage.sql"
    = Ok (insert_without_image s)
  ∧ get_query read_file "insertCastleImage.sql" = Ok (insert_with_image s).
Proof.
  intros (Hc & Hd & Hwo & Hw). unfold get_query. by rewrite Hc, Hd, Hwo, Hw.
Qed.

(** What a completed run did. *)
Lemma populate_table_inv (castles : list castle) (w w' : world) :
  loads read_file s →
  populate_table read_file cursor_execute castles w = Ok w' →
  ∃ cur0 cur1 : list row,
    cursor_execute (create_table_query s) [] (table (opened w)) = Some cur0
    ∧ cursor_execute (delete_data_query s) [] cur0 = Some cur1
    ∧ Forall has_keys castles
    ∧ for_each (run_statement cursor_execute) (insert_call s <$> castles) cur1
      = Ok (table w')
    ∧ executed w'
      = executed w ++ [(create_table_query s, []); (delete_data_query s, [])]
                   ++ (insert_call s <$> castles)
    ∧ db_exists w' = true.
Proof.
  intros Hloads. rewrite populate_table_run.
  destruct (get_query_loads Hloads) as (-> & -> & -> & ->). simpl.
  destruct (run_statement cursor_execute (table (opened w))
              (create_table_query s, [])) as [cur0|] eqn:Hcreate; simpl; [|done].
  destruct (run_statement cursor_execute cur0 (delete_data_query s, []))
    as [cur1|] eqn:Hdelete; simpl; [|done].
  apply run_statement_nil in Hcreate, Hdelete.
  destruct (for_each _ castles _) as [[cur2 w2]|] eqn:Hloop; simpl; [|done].
  intros [= <-].
  apply insert_loop_inv in Hloop as (Hkeys & Hrows & Hlog & Hdb).
  exists cur0, cur1. split_and!; try done.
  - change (executed (commit cur2 w2)) with (executed w2).
    rewrite Hlog, !echo_executed, <- !app_assoc.
    unfold opened. by destruct (db_exists w).
  - change (db_exists (commit cur2 w2)) with (db_exists w2).
    rewrite Hdb.
    rewrite (proj1 (proj2 (proj2 (echo_state _ _)))).
    rewrite (proj1 (proj2 (proj2 (echo_state _ _)))).
    unfold opened. by destruct (db_exists w) eqn:Hexists.
Qed.

(** Under the contract an accepted insert adds the row of the record. *)
Lemma run_insert_call (cur cur' : list row) (c : castle) :
  engine_contract cursor_execute s →
  run_statement cursor_execute cur (insert_call s c) = Ok cur' →
  ∃ r : row, stored_row c = Ok r ∧ cur' = cur ++ [r].
Proof.
  intros Hcontract. unfold run_statement, insert_call, stored_row.
  destruct (truthy (field c "image")); simpl.
  - destruct (adapt (field c "name")) as [n|]; simpl; [|done].
    destruct (adapt (field c "location")) as [l|]; simpl; [|done].
    destruct (adapt (field c "image")) as [i|]; simpl; [|done].
    destruct (cursor_execute _ _ _) as [cur1|] eqn:Hrun; [|done].
    intros [= <-]. eexists. split; [done|].
    eapply insert_three; [exact Hcontract|exact Hrun].
  - destruct (adapt (field c "name")) as [n|]; simpl; [|done].
    destruct (adapt (field c "location")) as [l|]; simpl; [|done].
    destruct (cursor_execute _ _ _) as [cur1|] eqn:Hrun; [|done].
    intros [= <-]. eexists. split; [done|].
    eapply insert_two; [exact Hcontract|exact Hrun].
Qed.

Lemma run_insert_calls (castles : list castle) :
  engine_contract cursor_execute s →
  ∀ cur cur' : list row,
    for_each (run_statement cursor_execute) (insert_call s <$> castles) cur
    = Ok cur' →
    ∃ rows : list row,
      cur' = cur ++ rows ∧ Forall2 (λ c r, stored_row c = Ok r) castles rows.
Proof.
  intros Hcontract.
  induction castles as [|c castles IH]; intros cur cur'.
  - simpl. intros [= <-]. exists []. by rewrite app_nil_r.
  - cbn [for_each fmap list_fmap].
    destruct (run_statement cursor_execute cur (insert_call s c))
      as [cur1|] eqn:Hstep; simpl; [|done].
    intros Hrest.
    apply (run_insert_call _ _ _ Hcontract) in Hstep as (r & Hr & ->).
    apply IH in Hrest as (rows & -> & Hrows).
    exists (r :: rows). split; [by rewrite <- app_assoc|by constructor].
Qed.

End Persistence.

Lemma populate_table_loads
    (read_file : string → option string)
    (cursor_execute : string → list sqlval → list row → option (list row))
    (castles : list castle) (w w' : world) :
  populate_table read_file cursor_execute castles w = Ok w' →
  ∃ s : statements, loads read_file s.
Proof.
  rewrite populate_table_run. unfold get_query, loads.
  destruct (read_file "createTable.sql") as [qc|]; simpl; [|done].
  destruct (run_statement _ _ _); simpl; [|done].
  destruct (read_file "deleteData.sql") as [qd|]; simpl; [|done].
  destruct (run_statement _ _ _); simpl; [|done].
  destruct (read_file "insertCastleWithoutImage.sql") as [qwo|]; simpl; [|done].
  destruct (read_file "insertCastleImage.sql") as [qw|]; simpl; [|done].
  intros _. by exists (Statements qc qd qwo qw).
Qed.

Lemma populate_table_raise
    (read_file : string → option string)
    (cursor_execute : string → list sqlval → list row → option (list row))
    (castles : list castle) (w : world) (e : exn) :
  Forall has_keys castles →
  populate_table read_file cursor_execute castles w = Raise e →
  is_key_error e = false.
Proof.
  intros Hkeys. rewrite populate_table_run. unfold get_query.
  destruct (read_file "createTable.sql") as [qc|]; simpl; [|by intros [= <-]].
  destruct (run_statement cursor_execute (table (opened w)) (qc, []))
    as [cur0|e0] eqn:H0; simpl;
    [|intros [= <-]; by rewrite (run_statement_raise _ _ _ _ H0)].
  destruct (read_file "deleteData.sql") as [qd|]; simpl; [|by intros [= <-]].
  destruct (run_statement cursor_execute cur0 (qd, [])) as [cur1|e1] eqn:H1;
    simpl; [|intros [= <-]; by rewrite (run_statement_raise _ _ _ _ H1)].
  destruct (read_file "insertCastleWithoutImage.sql") as [qwo|]; simpl;
    [|by intros [= <-]].
  destruct (read_file "insertCastleImage.sql") as [qw|]; simpl;
    [|by intros [= <-]].
  destruct (for_each _ castles _) as [[cur2 w2]|e2] eqn:Hloop; simpl; [done|].
  intros [= <-].
  by rewrite (insert_loop_raise cursor_execute (Statements qc qd qwo qw)
                castles _ _ _ Hkeys Hloop).
Qed.

Lemma sample_loads : loads sample_files sample_statements.
Proof. by vm_compute. Qed.

Lemma sample_contract : engine_contract sample_engine sample_statements.
Proof.
  split.
  - intros cur. by vm_compute.
  - intros cur. by vm_compute.
  - intros n l i cur cur' H. vm_compute in H. by injection H as <-.
  - intros n l cur cur' H. vm_compute in H. by injection H as <-.
Qed.

(** The calls of a run, whatever the records hold: the insert call of a
    record is chosen by the truth value of its image, and it is the one
    logged after the schema and the delete-all statement and the calls of
    the records before it. *)
Lemma insert_statement_by_truth_value
    (read_file : string → option string)
    (cursor_execute : string → list sqlval → list row → option (list row))
    (castles : list castle) (w w' : world) :
  populate_table read_file cursor_execute castles w = Ok w' →
  ∃ s : statements, loads read_file s ∧
    ∀ (i : nat) (c : castle), castles !! i = Some c →
      ∃ name location image : json,
        c !! "name" = Some name ∧ c !! "location" = Some location
        ∧ c !! "image" = Some image
        ∧ executed w' !! (length (executed w) + 2 + i)%nat
          = Some (if truthy image
                  then (insert_with_image s, [name; location; image])
                  else (insert_without_image s, [name; location])).
Proof.
  intros Hrun.
  destruct (populate_table_loads _ _ _ _ _ Hrun) as [s Hloads].
  exists s. split; [done|]. intros i c Hc.
  pose proof (populate_table_inv _ _ s _ _ _ Hloads Hrun)
    as (_ & _ & _ & _ & Hkeys & _ & Hlog & _).
  rewrite Forall_forall in Hkeys.
  destruct (Hkeys c) as ([name Hname] & [location Hlocation] & [image Himage]).
  { eapply list_elem_of_lookup_2, Hc. }
  exists name, location, image. split_and!; try done.
  rewrite Hlog, <- Nat.add_assoc, lookup_app_r by lia.
  replace (length (executed w) + (2 + i) - length (executed w))%nat
    with (2 + i)%nat by lia.
  simpl. rewrite list_lookup_fmap, Hc. simpl.
  unfold insert_call, field. by rewrite Hname, Hlocation, Himage.
Qed.

(** The rows of a completed run, whatever the records hold. *)
Lemma persistence_run_snapshot
    (read_file : string → option string)
    (cursor_execute : string → list sqlval → list row → option (list row))
    (s : statements) (castles : list castle) (w w' : world) :
  loads read_file s → engine_contract cursor_execute s →
  populate_table read_file cursor_execute castles w = Ok w' →
  Forall2 (λ c r, stored_row c = Ok r) castles (table w')
  ∧ executed w'
    = executed w ++ [(create_table_query s, []); (delete_data_query s, [])]
                 ++ (insert_call s <$> castles).
Proof.
  intros Hloads Hcontract Hrun.
  pose proof (populate_table_inv _ _ s _ _ _ Hloads Hrun)
    as (cur0 & cur1 & _ & Hdelete & _ & Hrows & Hlog & _).
  rewrite (delete_clears _ _ Hcontract) in Hdelete. injection Hdelete as <-.
  apply (run_insert_calls _ _ _ Hcontract) in Hrows as (rows & -> & Hrows).
  done.
Qed.

(** On a record that meets the invariant of the data model an image is
    truthy exactly when it is present. *)
Lemma invariant_truthy (c : castle) :
  castle_invariant c = true →
  truthy (field c "image") = is_not_none (field c "image").
Proof.
  unfold castle_invariant, invariant_on, field.
  destruct (c !! "name") as [n|]; [|done].
  destruct (c !! "location") as [l|]; [|done].
  destruct (c !! "image") as [i|]; [|done]. simpl.
  intros H. apply andb_true_iff in H as [_ Himage].
  destruct i as [| | |url| |]; try done. simpl in *.
  by destruct url.
Qed.

Lemma invariant_calls (s : statements) (c : castle) :
  castle_invariant c = true → insert_call s c = presence_call s c.
Proof.
  intros Hc. unfold insert_call, presence_call. by rewrite (invariant_truthy _ Hc).
Qed.

Lemma invariant_rows (c : castle) :
  castle_invariant c = true → stored_row c = claimed_row c.
Proof.
  intros Hc. unfold stored_row, claimed_row.
  rewrite (invariant_truthy _ Hc).
  by destruct (field c "image").
Qed.

(** Outside the invariant the two branches of [main] part ways: a record
    whose image is the empty string counts as a record with an image in
    option 0, and is inserted without image, with a null image, in
    option 1. *)
Lemma empty_image_record :
  castle_invariant (record "Conwy Castle" "Conwy" (JStr "")) = false
  ∧ has_image (record "Conwy Castle" "Conwy" (JStr "")) = true
  ∧ insert_call sample_statements (record "Conwy Castle" "Conwy" (JStr ""))
    = (insert_without_image sample_statements,
       [JStr "Conwy Castle"; JStr "Conwy"])
  ∧ stored_row (record "Conwy Castle" "Conwy" (JStr ""))
    = Ok (SqlText "Conwy Castle", SqlText "Conwy", SqlNull).
Proof. split_and!; by vm_compute. Qed.

(** C2: during a persistence run over CastleRecords, which by the data
    model carry a non-empty name and location and an image that is a valid
    URL whenever present, the insert statement of every record is chosen
    by the presence of its image: the three-parameter statement with name,
    location and image exactly when the image is present, the two-parameter
    statement with name and location exactly when it is absent.  The call
    for the record at index [i] is the one logged after the schema and the
    delete-all statement and the [i] calls of the records before it. *)
Theorem insert_statement_by_presence
    (read_file : string → option string)
    (cursor_execute : string → list sqlval → list row → option (list row))
    (castles : list castle) (w w' : world) :
  Forall (λ c, castle_invariant c = true) castles →
  populate_table read_file cursor_execute castles w = Ok w' →
  ∃ s : statements, loads read_file s ∧
    ∀ (i : nat) (c : castle), castles !! i = Some c →
      ∃ name location image : json,
        c !! "name" = Some name ∧ c !! "location" = Some location
        ∧ c !! "image" = Some image
        ∧ executed w' !! (length (executed w) + 2 + i)%nat
          = Some (if is_not_none image
                  then (insert_with_image s, [name; location; image])
                  else (insert_without_image s, [name; location])).
Proof.
  intros Hinvariant Hrun.
  destruct (insert_statement_by_truth_value _ _ _ _ _ Hrun) as (s & Hloads & Hcalls).
  exists s. split; [done|]. intros i c Hc.
  destruct (Hcalls i c Hc) as (name & location & image & Hn & Hl & Hi & Hcall).
  exists name, location, image. split_and!; try done.
  rewrite Hcall.
  assert (castle_invariant c = true) as Hinv.
  { rewrite Forall_forall in Hinvariant. apply Hinvariant.
    eapply list_elem_of_lookup_2, Hc. }
  apply invariant_truthy in Hinv. unfold field in Hinv. rewrite Hi in Hinv.
  simpl in Hinv. by rewrite Hinv.
Qed.

Lemma insert_statement_by_presence_witness :
  ∃ (w' : world) (s : statements),
    populate_table sample_files sample_engine sample_castles empty_world = Ok w'
    ∧ loads sample_files s
    ∧ executed w' !! 3%nat
      = Some (insert_with_image s,
              [JStr "Conwy Castle"; JStr "Conwy"; JStr "http://x/img.jpg"]).
Proof.
  destruct (populate_table sample_files sample_engine sample_castles empty_world)
    as [w'|] eqn:Hrun; [|vm_compute in Hrun; discriminate Hrun].
  assert (Forall (λ c, castle_invariant c = true) sample_castles) as Hinvariant
    by (repeat constructor).
  destruct (insert_statement_by_presence _ _ _ _ _ Hinvariant Hrun)
    as (s & Hloads & Hcalls).
  destruct (Hcalls 1%nat (record "Conwy Castle" "Conwy" (JStr "http://x/img.jpg"))
              eq_refl)
    as (name & location & image & Hn & Hl & Hi & Hcall).
  vm_compute in Hn, Hl, Hi.
  injection Hn as <-. injection Hl as <-. injection Hi as <-.
  exists w', s. split; [reflexivity|]. split; [exact Hloads|exact Hcall].
Defined.

(** C3: a persistence run over CastleRecords (non-empty name and location,
    an image that is a valid URL whenever present) executes the schema
    statement, then the delete-all statement, then one insert per record,
    in the order of the records; when it completes the table holds exactly
    one row per record, in that order, with the name, the location and the
    image of the record, null for an absent image; no row of an earlier run
    is left, whatever the table held before. *)
Theorem persistence_run_rows
    (read_file : string → option string)
    (cursor_execute : string → list sqlval → list row → option (list row))
    (s : statements) (castles : list castle) (w w' : world) :
  Forall (λ c, castle_invariant c = true) castles →
  loads read_file s → engine_contract cursor_execute s →
  populate_table read_file cursor_execute castles w = Ok w' →
  Forall2 (λ c r, claimed_row c = Ok r) castles (table w')
  ∧ executed w'
    = executed w ++ [(create_table_query s, []); (delete_data_query s, [])]
                 ++ (presence_call s <$> castles).
Proof.
  intros Hinvariant Hloads Hcontract Hrun.
  destruct (persistence_run_snapshot _ _ _ _ _ _ Hloads Hcontract Hrun)
    as [Hrows Hlog].
  split.
  - clear Hlog Hrun. revert Hinvariant.
    induction Hrows as [|c r castles rows Hr _ IH]; intros Hinvariant;
      [constructor|].
    apply Forall_cons in Hinvariant as [Hc Hinvariant].
    constructor; [|by apply IH]. by rewrite <- (invariant_rows _ Hc).
  - rewrite Hlog. do 2 f_equal.
    apply Forall_fmap_ext_1, Forall_forall. intros c Hc.
    rewrite Forall_forall in Hinvariant. by apply invariant_calls, Hinvariant.
Qed.

Lemma persistence_run_rows_witness :
  ∃ w' : world,
    populate_table sample_files sample_engine sample_castles used_world = Ok w'
    ∧ table w'
      = [(SqlText "Caerphilly Castle", SqlText "Caerphilly", SqlNull);
         (SqlText "Conwy Castle", SqlText "Conwy", SqlText "http://x/img.jpg")]
    ∧ Forall2 (λ c r, claimed_row c = Ok r) sample_castles (table w').
Proof.
  destruct (populate_table sample_files sample_engine sample_castles used_world)
    as [w'|] eqn:Hrun; [|vm_compute in Hrun; discriminate Hrun].
  assert (Forall (λ c, castle_invariant c = true) sample_castles) as Hinvariant
    by (repeat constructor).
  pose proof (persistence_run_rows _ _ _ _ _ _ Hinvariant sample_loads
                sample_contract Hrun) as [Hrows _].
  exists w'. split; [reflexivity|]. split; [|exact Hrows].
  vm_compute in Hrun. injection Hrun as <-. reflexivity.
Defined.

Lemma run_schema_and_delete
    (cursor_execute : string → list sqlval → list row → option (list row))
    (s : statements) (cur : list row) :
  engine_contract cursor_execute s →
  run_statement cursor_execute cur (create_table_query s, []) = Ok cur
  ∧ run_statement cursor_execute cur (delete_data_query s, []) = Ok [].
Proof.
  intros Hcontract. unfold run_statement. simpl.
  by rewrite (schema_keeps_rows _ _ Hcontract), (delete_clears _ _ Hcontract).
Qed.

(** C4: when a persistence run completes, running it again at once with
    the same records completes too and leaves the table exactly as the
    first run left it: no row is added, none is changed. *)
Theorem persistence_run_idempotent
    (read_file : string → option string)
    (cursor_execute : string → list sqlval → list row → option (list row))
    (s : statements) (castles : list castle) (w w1 : world) :
  loads read_file s → engine_contract cursor_execute s →
  populate_table read_file cursor_execute castles w = Ok w1 →
  ∃ w2 : world,
    populate_table read_file cursor_execute castles w1 = Ok w2
    ∧ table w2 = table w1
    ∧ db_exists w2 = db_exists w1.
Proof.
  intros Hloads Hcontract Hrun.
  pose proof (populate_table_inv _ _ s _ _ _ Hloads Hrun)
    as (cur0 & cur1 & _ & Hdelete & Hkeys & Hrows & _ & Hdb).
  rewrite (delete_clears _ _ Hcontract) in Hdelete. injection Hdelete as <-.
  destruct (insert_loop_rows cursor_execute s castles []
              (echo (delete_data_query s, [])
                 (echo (create_table_query s, []) (opened w1)))
              (table w1) Hkeys Hrows) as [w2 Hloop].
  exists (commit (table w1) w2).
  rewrite populate_table_run.
  destruct (get_query_loads _ _ Hloads) as (-> & -> & -> & ->). simpl.
  rewrite (proj1 (run_schema_and_delete _ _ _ Hcontract)). simpl.
  rewrite (proj2 (run_schema_and_delete _ _ _ Hcontract)). simpl.
  rewrite Hloop. simpl. split_and!; [done|done|].
  apply insert_loop_inv in Hloop as (_ & _ & _ & ->).
  rewrite (proj1 (proj2 (proj2 (echo_state _ _)))).
  rewrite (proj1 (proj2 (proj2 (echo_state _ _)))).
  unfold opened. by rewrite Hdb.
Qed.

Lemma persistence_run_idempotent_witness :
  ∃ w1 w2 : world,
    populate_table sample_files sample_engine sample_castles used_world = Ok w1
    ∧ populate_table sample_files sample_engine sample_castles w1 = Ok w2
    ∧ table w2 = table w1.
Proof.
  destruct (populate_table sample_files sample_engine sample_castles used_world)
    as [w1|] eqn:Hrun; [|vm_compute in Hrun; discriminate Hrun].
  destruct (persistence_run_idempotent _ _ _ _ _ _ sample_loads sample_contract
              Hrun) as (w2 & Hagain & Htable & _).
  exists w1, w2. split; [reflexivity|]. split; [exact Hagain|exact Htable].
Defined.

(** C9: every record returned by [get_castles_from_json] has the keys
    [name], [location] and [image], the image being [None] when the source
    binding has no [image]; so on the mapper's records neither the filter
    and the image read of option 0 nor the persistence run can raise
    [KeyError]. *)
Theorem mapper_records_have_all_keys (json_data : json) (castles : list castle) :
  get_castles_from_json json_data = Ok castles →
  Forall has_keys castles
  ∧ (∀ (items : list json) (i : nat) (item : json) (c : castle),
       bindings_of json_data = Some items →
       items !! i = Some item → castles !! i = Some c →
       has_variable item "image" = false → c !! "image" = Some JNull)
  ∧ (∀ (http_get : string → option string) (can_write : string → bool)
       (draw : nat) (w : world) (e : exn),
       download_random_castle http_get can_write draw castles w = Raise e →
       is_key_error e = false)
  ∧ (∀ (read_file : string → option string)
       (cursor_execute : string → list sqlval → list row → option (list row))
       (w : world) (e : exn),
       populate_table read_file cursor_execute castles w = Raise e →
       is_key_error e = false).
Proof.
  intros Hrun. pose proof (mapper_has_keys _ _ Hrun) as Hkeys.
  split_and!; [done| | |].
  - intros items i item c Hbindings Hi Hc Himage.
    apply get_castles_inv in Hrun as (items' & -> & _ & Hsame).
    rewrite <- (Hsame _ Hbindings), list_lookup_fmap, Hi in Hc.
    injection Hc as <-.
    by rewrite mapped_image, (no_image_value _ Himage).
  - intros http_get can_write draw w e.
    unfold download_random_castle, pick_random_castle.
    rewrite (keep_with_image_filter castles [] Hkeys). simpl.
    destruct (choice draw (List.filter has_image castles)) as [c|e'] eqn:Hc;
      simpl.
    + assert (has_keys c) as (_ & _ & Himage).
      { rewrite Forall_forall in Hkeys. apply Hkeys.
        unfold choice in Hc.
        destruct (List.filter has_image castles !! _) as [c'|] eqn:Hlookup;
          [|done].
        injection Hc as ->.
        apply list_elem_of_lookup_2 in Hlookup.
        by apply elem_of_filter_has_image in Hlookup as [? _]. }
      rewrite (castle_get_field c "image" Himage). simpl.
      destruct (field c "image") as [| | |url| |]; simpl; try by intros [= <-].
      destruct (http_get url); [|by intros [= <-]].
      destruct (String.eqb _ _); [by intros [= <-]|].
      destruct (can_write _); [done|by intros [= <-]].
    + intros [= <-]. by rewrite (choice_raise _ _ _ Hc).
  - intros read_file cursor_execute w e. by apply populate_table_raise.
Qed.

Lemma mapper_records_have_all_keys_witness :
  Forall has_keys sample_castles.
Proof.
  refine (proj1 (mapper_records_have_all_keys
    (response [binding "Caerphilly Castle" "Caerphilly" None;
               binding "Conwy Castle" "Conwy" (Some "http://x/img.jpg")])
    sample_castles _)).
  vm_compute. reflexivity.
Defined.

(** ** Further properties of the record mapper *)

(** The error of the loop body does not depend on the records collected
    so far. *)
Lemma append_castle_acc (castles : list castle) (item : json) :
  append_castle castles item
  = r ← append_castle [] item; Ok (castles ++ r).
Proof.
  destruct (well_formed_binding item) eqn:Hwf.
  - by rewrite !(append_castle_ok _ _ Hwf).
  - destruct (append_castle [] item) as [r|e] eqn:Hnil.
    { apply append_castle_inv in Hnil. congruence. }
    simpl. clear Hwf. revert Hnil.
    destruct item as [| | | | |fields]; simpl; try done.
    unfold append_castle; simpl.
    destruct (fields !! "itemLabel") as [label|]; simpl; [|done].
    destruct label as [| | | | |fields0]; simpl; try done.
    destruct (fields0 !! "value") as [name|]; simpl; [|done].
    destruct (fields !! "locationLabel") as [label|]; simpl; [|done].
    destruct label as [| | | | |fields1]; simpl; try done.
    destruct (fields1 !! "value") as [location|]; simpl; [|done].
    destruct (fields !! "image") as [image|]; simpl; [|done].
    destruct image as [| | | | |fields2]; simpl; try done.
    destruct (fields2 !! "value") as [url|]; simpl; done.
Qed.

Lemma for_each_append_castle_acc (items : list json) :
  ∀ castles : list castle,
    for_each append_castle items castles
    = r ← for_each append_castle items []; Ok (castles ++ r).
Proof.
  induction items as [|item items IH]; intros castles.
  - simpl. by rewrite app_nil_r.
  - cbn [for_each]. rewrite append_castle_acc.
    destruct (append_castle [] item) as [r|e]; simpl; [|done].
    rewrite (IH (castles ++ r)), (IH r).
    destruct (for_each append_castle items []) as [r'|e]; simpl; [|done].
    by rewrite <- app_assoc.
Qed.

Lemma for_each_app {A S : Type} (body : S → A → result S) (xs ys : list A) :
  ∀ st : S,
    for_each body (xs ++ ys) st = st' ← for_each body xs st; for_each body ys st'.
Proof.
  induction xs as [|x xs IH]; intros st; [done|].
  simpl. destruct (body st x) as [st'|e]; simpl; [apply IH|done].
Qed.

(** X1: when [results.bindings] is an array, the mapper returns if and only
    if every binding is well-formed, and whatever it raises otherwise is
    the [KeyError] or [TypeError] of a failed subscript. *)
Theorem mapper_returns_iff_well_formed (json_data : json) (items : list json) :
  bindings_of json_data = Some items →
  ((∃ castles : list castle, get_castles_from_json json_data = Ok castles)
   ↔ forallb well_formed_binding items = true)
  ∧ ∀ e : exn, get_castles_from_json json_data = Raise e →
      schema_violation e = true ∧ forallb well_formed_binding items = false.
Proof.
  intros Hbindings. rewrite (get_castles_of_bindings _ _ Hbindings). split.
  - split.
    + intros [castles Hrun]. eapply for_each_append_castle_inv, Hrun.
    + intros Hwf. eexists. by apply for_each_append_castle.
  - intros e Hrun. split; [eapply for_each_append_castle_raise, Hrun|].
    destruct (forallb well_formed_binding items) eqn:Hwf; [|done].
    by rewrite (for_each_append_castle _ _ Hwf) in Hrun.
Qed.

Lemma mapper_returns_iff_well_formed_witness :
  ((∃ castles : list castle,
      get_castles_from_json
        (response [binding "Conwy Castle" "Conwy" None;
                   JObj {[ "itemLabel" := cell "Harlech Castle" ]}])
      = Ok castles)
   ↔ forallb well_formed_binding
       [binding "Conwy Castle" "Conwy" None;
        JObj {[ "itemLabel" := cell "Harlech Castle" ]}] = true).
Proof.
  refine (proj1 (mapper_returns_iff_well_formed
    (response [binding "Conwy Castle" "Conwy" None;
               JObj {[ "itemLabel" := cell "Harlech Castle" ]}])
    [binding "Conwy Castle" "Conwy" None;
     JObj {[ "itemLabel" := cell "Harlech Castle" ]}] _)).
  vm_compute. reflexivity.
Defined.

(** X2: a record returned by the mapper has the keys [name], [location]
    and [image] and no other key, whatever else its binding holds. *)
Theorem mapper_records_exact_keys (json_data : json) (castles : list castle)
    (c : castle) :
  get_castles_from_json json_data = Ok castles → c ∈ castles →
  dom c = ({[ "name"; "location"; "image" ]} : gset string).
Proof.
  intros Hrun Hc. apply get_castles_inv in Hrun as (items & -> & _ & _).
  apply list_elem_of_fmap in Hc as (item & -> & _).
  unfold mapped. rewrite !dom_insert_L, dom_empty_L. set_solver.
Qed.

Lemma mapper_records_exact_keys_witness :
  dom (record "Conwy Castle" "Conwy" (JStr "http://x/img.jpg"))
  = ({[ "name"; "location"; "image" ]} : gset string).
Proof.
  refine (mapper_records_exact_keys
    (response [JObj (<["article" := cell "https://x/wiki"]>
                       (<["itemLabel" := cell "Conwy Castle"]>
                          (<["image" := cell "http://x/img.jpg"]>
                             {[ "locationLabel" := cell "Conwy" ]})))])
    [record "Conwy Castle" "Conwy" (JStr "http://x/img.jpg")]
    (record "Conwy Castle" "Conwy" (JStr "http://x/img.jpg")) _ _).
  - vm_compute. reflexivity.
  - apply list_elem_of_In. left. reflexivity.
Defined.

(** X3: the mapper distributes over the concatenation of binding lists:
    on the bindings [items1 ++ items2] it returns the records of [items1]
    followed by those of [items2], and raises what the first failing part
    raises. *)
Theorem mapper_concatenation (json_data json_data1 json_data2 : json)
    (items1 items2 : list json) :
  bindings_of json_data = Some (items1 ++ items2) →
  bindings_of json_data1 = Some items1 →
  bindings_of json_data2 = Some items2 →
  get_castles_from_json json_data
  = castles1 ← get_castles_from_json json_data1;
    castles2 ← get_castles_from_json json_data2;
    Ok (castles1 ++ castles2).
Proof.
  intros H H1 H2.
  rewrite (get_castles_of_bindings _ _ H), (get_castles_of_bindings _ _ H1),
    (get_castles_of_bindings _ _ H2), for_each_app.
  destruct (for_each append_castle items1 []) as [castles1|e]; simpl; [|done].
  apply for_each_append_castle_acc.
Qed.

Lemma mapper_concatenation_witness :
  get_castles_from_json
    (response ([binding "Caerphilly Castle" "Caerphilly" None]
               ++ [binding "Conwy Castle" "Conwy" (Some "http://x/img.jpg")]))
  = castles1 ← get_castles_from_json
                 (response [binding "Caerphilly Castle" "Caerphilly" None]);
    castles2 ← get_castles_from_json
                 (response [binding "Conwy Castle" "Conwy"
                              (Some "http://x/img.jpg")]);
    Ok (castles1 ++ castles2).
Proof.
  apply (mapper_concatenation _ _ _
           [binding "Caerphilly Castle" "Caerphilly" None]
           [binding "Conwy Castle" "Conwy" (Some "http://x/img.jpg")]).
  - vm_compute. reflexivity.
  - vm_compute. reflexivity.
  - vm_compute. reflexivity.
Defined.

Lemma mapper_after_good (json_data : json) (good rest : list json) :
  bindings_of json_data = Some (good ++ rest) →
  forallb well_formed_binding good = true →
  get_castles_from_json json_data
  = for_each append_castle rest (mapped <$> good).
Proof.
  intros Hbindings Hgood.
  rewrite (get_castles_of_bindings _ _ Hbindings), for_each_app.
  by rewrite (for_each_append_castle _ _ Hgood).
Qed.

(** X4: the mapper stops at the first binding that is not well-formed and
    raises the error of that binding, whatever follows it: [TypeError] for
    a binding that is no object, [KeyError] on [itemLabel] for an object
    without that key, [KeyError] on [value] when [itemLabel] is an object
    without a [value], [KeyError] on [locationLabel] when only that key is
    missing. *)
Theorem mapper_first_bad_binding (json_data : json) (good : list json)
    (bad : json) (rest : list json) :
  bindings_of json_data = Some (good ++ bad :: rest) →
  forallb well_formed_binding good = true →
  ((∀ fields, bad ≠ JObj fields) →
   get_castles_from_json json_data = Raise TypeError)
  ∧ (∀ fields, bad = JObj fields → fields !! "itemLabel" = None →
     get_castles_from_json json_data = Raise (KeyError "itemLabel"))
  ∧ (∀ fields label, bad = JObj fields →
     fields !! "itemLabel" = Some (JObj label) → label !! "value" = None →
     get_castles_from_json json_data = Raise (KeyError "value"))
  ∧ (∀ fields, bad = JObj fields →
     is_Some (variable_value bad "itemLabel") →
     fields !! "locationLabel" = None →
     get_castles_from_json json_data = Raise (KeyError "locationLabel")).
Proof.
  intros Hbindings Hgood.
  rewrite (mapper_after_good _ _ _ Hbindings Hgood). cbn [for_each].
  split_and!.
  - intros Hbad. destruct bad; try done. by destruct (Hbad fields).
  - intros fields -> Hitem. unfold append_castle. simpl. by rewrite Hitem.
  - intros fields label -> Hitem Hvalue. unfold append_castle. simpl.
    rewrite Hitem. simpl. by rewrite Hvalue.
  - intros fields -> [name Hname] Hlocation. unfold append_castle. simpl.
    simpl in Hname.
    destruct (fields !! "itemLabel") as [[| | | | |label]|]; try done. simpl.
    rewrite Hname. simpl. by rewrite Hlocation.
Qed.

Lemma mapper_first_bad_binding_witness :
  get_castles_from_json
    (response ([binding "Conwy Castle" "Conwy" None]
               ++ JObj {[ "locationLabel" := cell "Harlech" ]}
               :: [JNull]))
  = Raise (KeyError "itemLabel").
Proof.
  refine (proj1 (proj2 (mapper_first_bad_binding
    (response ([binding "Conwy Castle" "Conwy" None]
               ++ JObj {[ "locationLabel" := cell "Harlech" ]} :: [JNull]))
    [binding "Conwy Castle" "Conwy" None]
    (JObj {[ "locationLabel" := cell "Harlech" ]}) [JNull] _ _))
    {[ "locationLabel" := cell "Harlech" ]} _ _).
  - vm_compute. reflexivity.
  - vm_compute. reflexivity.
  - reflexivity.
  - vm_compute. reflexivity.
Defined.

(** X5: the shape of the result decides before any binding is read: a
    result that is no object raises [TypeError], a missing [results] or
    [bindings] key raises [KeyError] on that key; a [bindings] value that
    is no array is iterated all the same, so an empty string or an empty
    object yields no record and every other value raises [TypeError]. *)
Theorem mapper_result_shape :
  (∀ json_data : json, (∀ top, json_data ≠ JObj top) →
     get_castles_from_json json_data = Raise TypeError)
  ∧ (∀ top : gmap string json, top !! "results" = None →
     get_castles_from_json (JObj top) = Raise (KeyError "results"))
  ∧ (∀ (top results : gmap string json),
       top !! "results" = Some (JObj results) →
       results !! "bindings" = None →
       get_castles_from_json (JObj top) = Raise (KeyError "bindings"))
  ∧ (∀ (top results : gmap string json) (bindings : json),
       top !! "results" = Some (JObj results) →
       results !! "bindings" = Some bindings →
       (∀ items, bindings ≠ JArr items) →
       get_castles_from_json (JObj top)
       = match bindings with
         | JStr EmptyString => Ok []
         | JObj fields => if decide (fields = ∅) then Ok [] else Raise TypeError
         | _ => Raise TypeError
         end).
Proof.
  split_and!.
  - intros json_data Hshape. destruct json_data; try done.
    by destruct (Hshape fields).
  - intros top Hresults. unfold get_castles_from_json. simpl.
    by rewrite Hresults.
  - intros top results Hresults Hbindings.
    unfold get_castles_from_json. simpl. rewrite Hresults. simpl.
    by rewrite Hbindings.
  - intros top results bindings Hresults Hbindings Harray.
    unfold get_castles_from_json. simpl. rewrite Hresults. simpl.
    rewrite Hbindings. simpl.
    destruct bindings as [| | |s|items|fields]; simpl; try done.
    + by destruct s.
    + by destruct (Harray items).
    + destruct (decide (fields = ∅)) as [->|Hne].
      * by rewrite map_to_list_empty.
      * destruct (map_to_list fields) as [|[key v] l] eqn:Hl; [|done].
        by apply map_to_list_empty_iff in Hl.
Qed.

Lemma mapper_result_shape_witness :
  get_castles_from_json
    (JObj {[ "results" := JObj {[ "bindings" := JStr "" ]} ]})
  = Ok []
  ∧ get_castles_from_json (JObj {[ "head" := JNull ]})
    = Raise (KeyError "results").
Proof.
  split.
  - refine (proj2 (proj2 (proj2 mapper_result_shape))
              {[ "results" := JObj {[ "bindings" := JStr "" ]} ]}
              {[ "bindings" := JStr "" ]} (JStr "") _ _ _).
    + vm_compute. reflexivity.
    + vm_compute. reflexivity.
    + intros items H. discriminate H.
  - refine (proj1 (proj2 mapper_result_shape) {[ "head" := JNull ]} _).
    vm_compute. reflexivity.
Defined.

(** ** Further properties of the console menu *)

Section ConsoleOutcomes.

Variable int : string → option Z.
Variable printable : Z → bool.
Hypothesis int_empty : int "" = None.

Lemma first_accepted (min_val max_val : Z) (lines : list string) :
  existsb (accepted int min_val max_val) lines = true →
  ∃ (rejected : list string) (line : string) (rest : list string),
    lines = rejected ++ line :: rest
    ∧ Forall (λ l, accepted int min_val max_val l = false) rejected
    ∧ accepted int min_val max_val line = true.
Proof.
  induction lines as [|l lines IH]; [done|]. simpl.
  destruct (accepted int min_val max_val l) eqn:Hl; simpl.
  - intros _. by exists [], l, lines.
  - intros Hrest. destruct (IH Hrest) as (rejected & line & rest & -> & ? & ?).
    exists (l :: rejected), line, rest. split_and!; [done| |done].
    by constructor.
Qed.

Lemma none_accepted (min_val max_val : Z) (lines : list string) :
  existsb (accepted int min_val max_val) lines = false →
  Forall (λ l, accepted int min_val max_val l = false) lines.
Proof.
  induction lines as [|l lines IH]; [by constructor|]. simpl.
  intros H. apply orb_false_iff in H as [Hl Hrest].
  constructor; [done|by apply IH].
Qed.

Lemma accepted_value (min_val max_val : Z) (line : string) :
  accepted int min_val max_val line = true →
  ∃ v : Z, int line = Some v ∧ (min_val ≤ v ≤ max_val)%Z.
Proof.
  unfold accepted. destruct (int line) as [v|]; [|done].
  intros H. apply andb_true_iff in H as [Hmin Hmax].
  apply Z.leb_le in Hmin, Hmax. by exists v.
Qed.

Lemma answers_exist (prompt : string) (min_val max_val : Z)
    (lines : list string) :
  Forall (λ l, is_Some (rejection int printable prompt min_val max_val l))
    lines →
  ∃ answers : list (list output),
    Forall2 (λ l a, rejection int printable prompt min_val max_val l = Some a)
      lines answers.
Proof.
  induction 1 as [|l lines [a Ha] _ [answers IH]].
  - exists []. constructor.
  - exists (a :: answers). by constructor.
Qed.

(** What the loop can raise. *)
Lemma while_raise (prompt : string) (min_val max_val : Z) (lines : list string) :
  ∀ (inp : string) (int_val : option Z) (out : list output) (e : exn),
    is_integer int inp = false →
    while_not_integer int printable prompt min_val max_val inp int_val lines out
    = Raise e →
    (e = EOFError ∧ existsb (accepted int min_val max_val) lines = false)
    ∨ (e = ValueError
       ∧ Exists (λ l, accepted int min_val max_val l = false
                      ∧ rejection int printable prompt min_val max_val l = None)
           lines).
Proof.
  induction lines as [|l lines IH]; intros inp int_val out e Hinp Hrun.
  - simpl in Hrun. rewrite Hinp in Hrun. injection Hrun as <-. by left.
  - destruct (accepted int min_val max_val l) eqn:Hl.
    + destruct (accepted_value _ _ _ Hl) as (v & Hv & Hrange).
      by rewrite (while_accept int printable _ _ _ _ _ _ _ _ v Hinp Hv Hrange)
        in Hrun.
    + destruct (rejection int printable prompt min_val max_val l)
        as [a|] eqn:Ha.
      * destruct (while_reject int printable int_empty prompt min_val max_val
                    inp l int_val lines out a Hinp Hl Ha)
          as (inp' & int_val' & Hinp' & Hstep).
        rewrite Hstep in Hrun.
        destruct (IH _ _ _ _ Hinp' Hrun) as [[-> Hnone]|[-> Hsome]].
        -- left. split; [done|]. simpl. by rewrite Hl.
        -- right. split; [done|]. by apply Exists_cons_tl.
      * rewrite (while_unprintable int printable _ _ _ _ _ _ _ _ Hinp Hl Ha)
          in Hrun.
        injection Hrun as <-. right. split; [done|]. by apply Exists_cons_hd.
Qed.

End ConsoleOutcomes.

(** X6: the outcomes of [get_integer_input_in_range], whatever [int]
    accepts and the interpreter formats, as long as [int("")] fails.  It
    raises nothing but [EOFError], at the end of an input in which no line
    is within the bounds, and [ValueError], at an out-of-range integer line
    whose message cannot be formatted: [int] is only called on a line that
    [is_integer] accepted and [int_val] is bound before it is returned.
    When the message of every line can be formatted, it returns exactly
    when some line parses to an integer within the bounds. *)
Theorem bounded_integer_outcome
    (int : string → option Z) (printable : Z → bool)
    (prompt : string) (min_val max_val : Z)
    (lines : list string) (out : list output) :
  int "" = None →
  (∀ e : exn,
     get_integer_input_in_range int printable prompt min_val max_val lines out
     = Raise e →
     (e = EOFError ∧ existsb (accepted int min_val max_val) lines = false)
     ∨ (e = ValueError
        ∧ Exists (λ l, accepted int min_val max_val l = false
                       ∧ rejection int printable prompt min_val max_val l = None)
            lines))
  ∧ (Forall (λ l, is_Some (rejection int printable prompt min_val max_val l))
       lines →
     if existsb (accepted int min_val max_val) lines
     then ∃ (v : Z) (rest : list string) (out' : list output),
            get_integer_input_in_range int printable prompt min_val max_val
              lines out
            = Ok (v, rest, out')
     else get_integer_input_in_range int printable prompt min_val max_val
            lines out
          = Raise EOFError).
Proof.
  intros Hempty. split.
  - intros e Hrun.
    eapply (while_raise int printable Hempty); [|exact Hrun].
    by apply is_integer_empty.
  - intros Hanswers.
    destruct (existsb (accepted int min_val max_val) lines) eqn:Hlines.
    + apply first_accepted in Hlines
        as (rejected & line & rest & -> & Hrej & Hline).
      apply accepted_value in Hline as (v & Hv & Hrange).
      apply Forall_app in Hanswers as [Hanswers _].
      destruct (answers_exist int printable _ _ _ _ Hanswers) as [answers Hans].
      exists v, rest. eexists.
      apply (while_returns int printable Hempty); try done.
      by apply is_integer_empty.
    + apply none_accepted in Hlines.
      unfold get_integer_input_in_range.
      rewrite (while_all_rejected int printable Hempty);
        [| done | by apply is_integer_empty].
      replace (forallb _ lines) with true; [done|].
      symmetry. apply forallb_forall. intros l Hl.
      apply bool_decide_eq_true.
      rewrite Forall_forall in Hanswers. by apply Hanswers, list_elem_of_In.
Qed.

Lemma bounded_integer_outcome_witness :
  ∃ (v : Z) (rest : list string) (out' : list output),
    get_integer_input_in_range ascii_int within_limit "? " 1 5
      ["9"; "x"; "4"; "2"] []
    = Ok (v, rest, out').
Proof.
  refine (proj2 (bounded_integer_outcome ascii_int within_limit "? " 1%Z 5%Z
                   ["9"; "x"; "4"; "2"] [] _) _).
  - vm_compute. reflexivity.
  - repeat constructor; eexists; vm_compute; reflexivity.
Defined.

(** X7: whenever [get_option_from_list] returns, it has printed one
    numbered line per option, in order, before the first prompt, and its
    result is a valid index of the list: it is one less than the integer
    [int] read from the line the loop stopped at, which lies between 1 and
    the number of options. *)
Theorem option_index_is_valid
    (int : string → option Z) (printable : Z → bool)
    (list_of_options : list string)
    (lines : list string) (out : list output)
    (index : Z) (rest : list string) (out' : list output) :
  int "" = None →
  get_option_from_list int printable list_of_options lines out
  = Ok (index, rest, out') →
  (0 ≤ index < Z.of_nat (length list_of_options))%Z
  ∧ is_Some (list_of_options !! Z.to_nat index)
  ∧ (∃ (rejected : list string) (line : string),
       lines = rejected ++ line :: rest ∧ int line = Some (index + 1)%Z)
  ∧ ∃ asked : list output,
      out' = out ++ imap (λ i value, option_line (S i) value) list_of_options
                 ++ asked.
Proof.
  intros Hempty.
  unfold get_option_from_list, get_integer_input_in_range.
  destruct (while_not_integer _ _ _ _ _ _ _ _ _) as [[[v rest'] out'']|e]
    eqn:Hrun; simpl; [|done].
  intros [= <- <- <-].
  apply (while_inv int printable Hempty) in Hrun
    as (rejected & answers & line & -> & Hline & Hrange & _ & _ & ->);
    [|by apply is_integer_empty].
  split_and!.
  - lia.
  - lia.
  - apply lookup_lt_is_Some. lia.
  - exists rejected, line. split; [done|]. rewrite Hline. f_equal. lia.
  - eexists. by rewrite <- !app_assoc.
Qed.

Lemma option_index_is_valid_witness :
  (0 ≤ 1 < Z.of_nat (length options))%Z
  ∧ is_Some (options !! Z.to_nat 1).
Proof.
  destruct (option_index_is_valid ascii_int within_limit options
    ["3"; "two"; "2"] [] 1%Z []
    (imap (λ i value, option_line (S i) value) options
     ++ [Shown ("Select an option by choosing a number." +:+ newline);
         Printed "3 not in range 1 - 2";
         Shown ("Select an option by choosing a number." +:+ newline);
         Shown ("Select an option by choosing a number." +:+ newline)]))
    as (Hrange & Hsome & _).
  - vm_compute. reflexivity.
  - vm_compute. reflexivity.
  - split; [exact Hrange|exact Hsome].
Defined.

(** ** The file name of a download *)

Lemma string_app_cons (x : ascii) (a b : string) :
  String x a +:+ b = String x (a +:+ b).
Proof. reflexivity. Qed.

Lemma string_app_nil_r (a : string) : a +:+ "" = a.
Proof.
  induction a as [|x a IH]; [done|]. by rewrite string_app_cons, IH.
Qed.

Lemma string_app_assoc (a b c : string) : (a +:+ b) +:+ c = a +:+ (b +:+ c).
Proof.
  induction a as [|x a IH]; [done|]. by rewrite !string_app_cons, IH.
Qed.

Lemma slash_free_app (a b : string) :
  slash_free (a +:+ b) = slash_free a && slash_free b.
Proof.
  induction a as [|x a IH]; [done|].
  rewrite string_app_cons. simpl. by rewrite IH, andb_assoc.
Qed.

Lemma last_segment_slash_free (url : string) :
  ∀ segment : string, slash_free segment = true →
    slash_free (last_segment url segment) = true.
Proof.
  induction url as [|c url IH]; intros segment Hsegment; simpl; [done|].
  destruct (Ascii.eqb c "/") eqn:Hc; apply IH; [done|].
  rewrite slash_free_app, Hsegment. simpl. by rewrite Hc.
Qed.

Lemma last_segment_plain (url : string) :
  slash_free url = true →
  ∀ segment : string, last_segment url segment = segment +:+ url.
Proof.
  induction url as [|c url IH]; simpl; intros Hurl segment.
  - by rewrite string_app_nil_r.
  - apply andb_true_iff in Hurl as [Hc Hurl].
    apply negb_true_iff in Hc. rewrite Hc, (IH Hurl).
    by rewrite string_app_assoc.
Qed.

Lemma last_segment_split (url : string) :
  slash_free url = false →
  ∀ segment : string,
    ∃ prefix : string,
      segment +:+ url = prefix +:+ "/" +:+ last_segment url segment.
Proof.
  induction url as [|c url IH]; simpl; [done|]. intros Hurl segment.
  destruct (Ascii.eqb c "/") eqn:Hc; simpl in Hurl.
  - apply Ascii.eqb_eq in Hc as ->.
    destruct (slash_free url) eqn:Hrest.
    + exists segment. by rewrite (last_segment_plain _ Hrest).
    + destruct (IH eq_refl "") as [prefix Hprefix]. simpl in Hprefix.
      exists (segment +:+ "/" +:+ prefix).
      rewrite Hprefix at 1. by rewrite !string_app_assoc.
  - destruct (IH Hurl (segment +:+ String c "")) as [prefix Hprefix].
    exists prefix. rewrite <- Hprefix. by rewrite string_app_assoc.
Qed.

Lemma last_segment_app (a b : string) :
  ∀ segment : string,
    last_segment (a +:+ b) segment = last_segment b (last_segment a segment).
Proof.
  induction a as [|c a IH]; intros segment; simpl; [done|].
  destruct (Ascii.eqb c "/"); apply IH.
Qed.

(** X10: the file a download is written to is named after what follows
    the last slash of the URL: the name holds no slash, it is the whole URL
    when the URL has no slash, the URL ends with a slash and the name
    otherwise, and for a URL [directory/name] with a slash-free [name] it
    is [name] (the empty name when the URL ends with a slash). *)
Theorem filename_is_last_segment (url : string) :
  slash_free (last_segment url "") = true
  ∧ (slash_free url = true → last_segment url "" = url)
  ∧ (slash_free url = false →
     ∃ prefix : string, url = prefix +:+ "/" +:+ last_segment url "")
  ∧ ∀ directory name : string,
      url = directory +:+ "/" +:+ name → slash_free name = true →
      last_segment url "" = name.
Proof.
  split_and!.
  - by apply last_segment_slash_free.
  - intros Hurl. by rewrite (last_segment_plain _ Hurl).
  - intros Hurl. destruct (last_segment_split _ Hurl "") as [prefix Hprefix].
    by exists prefix.
  - intros directory name -> Hname.
    rewrite last_segment_app. simpl. by rewrite (last_segment_plain _ Hname).
Qed.

Lemma filename_is_last_segment_witness :
  last_segment "https://commons.example/a/b/castle.jpg" "" = "castle.jpg".
Proof.
  apply (proj2 (proj2 (proj2
           (filename_is_last_segment "https://commons.example/a/b/castle.jpg")))
           "https://commons.example/a/b" "castle.jpg").
  - reflexivity.
  - reflexivity.
Defined.

(** ** Further properties of option 0 *)

Lemma filter_none (castles : list castle) :
  (∀ c : castle, c ∈ castles → has_image c = false) →
  List.filter has_image castles = [].
Proof.
  induction castles as [|c castles IH]; [done|]. intros Hnone. simpl.
  rewrite (Hnone c) by apply list_elem_of_here.
  apply IH. intros c' Hc'. apply Hnone. by apply list_elem_of_further.
Qed.

(** X11: when no mapped record has an image (in particular when there is
    no record at all), the random choice of option 0 raises [IndexError],
    the one of [random.choice] on an empty list, whatever the generator
    draws; so do the download branch and [main] once the menu has returned
    option 0. *)
Theorem no_image_no_choice (json_data : json) (castles : list castle)
    (draw : nat) :
  get_castles_from_json json_data = Ok castles →
  (∀ c : castle, c ∈ castles → has_image c = false) →
  pick_random_castle draw castles = Raise IndexError
  ∧ (∀ (http_get : string → option string) (can_write : string → bool)
       (w : world),
       download_random_castle http_get can_write draw castles w
       = Raise IndexError)
  ∧ ∀ (read_file : string → option string) (wikidata : string → result json)
      (cursor_execute : string → list sqlval → list row → option (list row))
      (int : string → option Z) (printable : Z → bool)
      (http_get : string → option string) (can_write : string → bool)
      (query : string) (w : world) (lines : list string) (out : list output),
      read_file "wikidata_query.rq" = Some query →
      wikidata query = Ok json_data →
      get_option_from_list int printable options (stdin w) (stdout w)
      = Ok (0%Z, lines, out) →
      main read_file wikidata cursor_execute draw int printable http_get
        can_write w
      = Raise IndexError.
Proof.
  intros Hrun Hnone.
  pose proof (mapper_has_keys _ _ Hrun) as Hkeys.
  assert (pick_random_castle draw castles = Raise IndexError) as Hpick.
  { unfold pick_random_castle.
    rewrite (keep_with_image_filter castles [] Hkeys), (filter_none _ Hnone).
    done. }
  assert (∀ (http_get : string → option string) (can_write : string → bool)
            (w : world),
            download_random_castle http_get can_write draw castles w
            = Raise IndexError) as Hdownload.
  { intros http_get can_write w. unfold download_random_castle.
    by rewrite Hpick. }
  split_and!; [done|done|].
  intros read_file wikidata cursor_execute int printable http_get can_write
    query w lines out Hquery Hdata Hopt.
  rewrite (main_option_0 read_file wikidata cursor_execute draw int printable
             http_get can_write query json_data castles w lines out
             Hquery Hdata Hrun Hopt).
  apply Hdownload.
Qed.

Lemma no_image_no_choice_witness :
  pick_random_castle 3 [record "Caerphilly Castle" "Caerphilly" JNull]
  = Raise IndexError.
Proof.
  refine (proj1 (no_image_no_choice
    (response [binding "Caerphilly Castle" "Caerphilly" None])
    [record "Caerphilly Castle" "Caerphilly" JNull] 3%nat _ _)).
  - vm_compute. reflexivity.
  - intros c Hc. apply list_elem_of_In in Hc.
    destruct Hc as [<-|[]]. vm_compute. reflexivity.
Defined.

(** ** Further properties of the persistence run *)

Lemma echo_insert_stdout (s : statements) (c : castle) (w : world) :
  stdout (echo (insert_call s c) w) = stdout w ++ echo_lines s c.
Proof.
  unfold echo, echo_lines, insert_call.
  destruct (truthy (field c "image")); simpl; by rewrite <- app_assoc.
Qed.

(** The insert loop writes the statement and the parameters of every
    record and leaves the rest of the world alone. *)
Lemma insert_loop_console
    (cursor_execute : string → list sqlval → list row → option (list row))
    (s : statements) (castles : list castle) :
  ∀ (cur : list row) (w : world) (cur' : list row) (w' : world),
    for_each
      (insert_castle cursor_execute (insert_without_image s, insert_with_image s))
      castles (cur, w)
    = Ok (cur', w') →
    stdout w' = stdout w ++ concat (echo_lines s <$> castles)
    ∧ stdin w' = stdin w ∧ fetched w' = fetched w ∧ table w' = table w.
Proof.
  induction castles as [|c castles IH]; intros cur w cur' w'.
  - simpl. intros [= <- <-]. by rewrite app_nil_r.
  - cbn [for_each fmap list_fmap concat].
    destruct (has_keys_dec c) as [Hkeys|Hkeys].
    + rewrite (insert_castle_keys _ _ _ _ _ Hkeys).
      destruct (run_statement cursor_execute cur (insert_call s c))
        as [cur1|e]; simpl; [|done].
      intros Hrest. apply IH in Hrest as (Hout & Hin & Hfetched & Htable).
      destruct (echo_state (insert_call s c) w) as (Hin' & Htable' & _ & Hfetched').
      rewrite Hout, Hin, Hfetched, Htable, echo_insert_stdout, <- app_assoc.
      done.
    + destruct (insert_castle_no_keys cursor_execute s cur w c Hkeys)
        as [key ->]. done.
Qed.

(** X12: a completed persistence run echoes on the console, for each
    record in order, the insert statement and then the tuple of its
    parameters, and nothing for the schema and the delete-all statement,
    which have no parameter; it reads no input, fetches nothing, and leaves
    the database file in existence. *)
Theorem persistence_run_console
    (read_file : string → option string)
    (cursor_execute : string → list sqlval → list row → option (list row))
    (s : statements) (castles : list castle) (w w' : world) :
  loads read_file s →
  populate_table read_file cursor_execute castles w = Ok w' →
  stdout w' = stdout w ++ concat (echo_lines s <$> castles)
  ∧ stdin w' = stdin w
  ∧ fetched w' = fetched w
  ∧ db_exists w' = true.
Proof.
  intros Hloads Hrun.
  pose proof (populate_table_inv _ _ s _ _ _ Hloads Hrun)
    as (_ & _ & _ & _ & _ & _ & _ & Hdb).
  revert Hrun. rewrite populate_table_run.
  destruct (get_query_loads _ _ Hloads) as (-> & -> & -> & ->). simpl.
  destruct (run_statement _ _ _) as [cur0|]; simpl; [|done].
  destruct (run_statement _ _ _) as [cur1|]; simpl; [|done].
  destruct (for_each _ castles _) as [[cur2 w2]|] eqn:Hloop; simpl; [|done].
  intros [= <-].
  apply insert_loop_console in Hloop as (Hout & Hin & Hfetched & _).
  split_and!; [| | |done].
  - change (stdout (commit cur2 w2)) with (stdout w2). rewrite Hout.
    unfold opened. by destruct (db_exists w).
  - change (stdin (commit cur2 w2)) with (stdin w2). rewrite Hin.
    unfold opened. by destruct (db_exists w).
  - change (fetched (commit cur2 w2)) with (fetched w2). rewrite Hfetched.
    unfold opened. by destruct (db_exists w).
Qed.

Lemma persistence_run_console_witness :
  ∃ w' : world,
    populate_table sample_files sample_engine sample_castles empty_world = Ok w'
    ∧ stdout w'
      = [Printed (insert_without_image sample_statements);
         PrintedTuple [JStr "Caerphilly Castle"; JStr "Caerphilly"];
         Printed (insert_with_image sample_statements);
         PrintedTuple [JStr "Conwy Castle"; JStr "Conwy";
                       JStr "http://x/img.jpg"]]
    ∧ db_exists w' = true.
Proof.
  destruct (populate_table sample_files sample_engine sample_castles empty_world)
    as [w'|] eqn:Hrun; [|vm_compute in Hrun; discriminate Hrun].
  destruct (persistence_run_console _ _ _ _ _ _ sample_loads Hrun)
    as (Hout & _ & _ & Hdb).
  exists w'. split; [reflexivity|]. split; [|exact Hdb].
  rewrite Hout. vm_compute. reflexivity.
Defined.

(** X13: a persistence run can only complete on records that have the
    three keys; with the statement files present and an engine that keeps to
    the statement contract, a run over hand-made records whose first record
    lacks [name], [location] or [image] raises [KeyError]. *)
Theorem persistence_run_needs_keys
    (read_file : string → option string)
    (cursor_execute : string → list sqlval → list row → option (list row))
    (castles : list castle) (w : world) :
  (∀ w' : world,
     populate_table read_file cursor_execute castles w = Ok w' →
     Forall has_keys castles)
  ∧ ∀ (s : statements) (c : castle) (rest : list castle),
      loads read_file s → engine_contract cursor_execute s →
      castles = c :: rest → ¬ has_keys c →
      ∃ key : string,
        populate_table read_file cursor_execute castles w
        = Raise (KeyError key).
Proof.
  split.
  - intros w' Hrun.
    destruct (populate_table_loads _ _ _ _ _ Hrun) as [s Hloads].
    by pose proof (populate_table_inv _ _ s _ _ _ Hloads Hrun)
      as (_ & _ & _ & _ & Hkeys & _).
  - intros s c rest Hloads Hcontract -> Hkeys.
    rewrite populate_table_run.
    destruct (get_query_loads _ _ Hloads) as (-> & -> & -> & ->).
    cbn [mbind result_bind].
    rewrite (proj1 (run_schema_and_delete _ _ _ Hcontract)).
    cbn [mbind result_bind].
    rewrite (proj2 (run_schema_and_delete _ _ _ Hcontract)).
    cbn [mbind result_bind for_each].
    destruct (insert_castle_no_keys cursor_execute s []
                (echo (delete_data_query s, [])
                   (echo (create_table_query s, []) (opened w))) c Hkeys)
      as [key ->].
    by exists key.
Qed.

Lemma persistence_run_needs_keys_witness :
  ∃ key : string,
    populate_table sample_files sample_engine
      [{[ "name" := JStr "Conwy Castle" ]}; record "A" "B" JNull] empty_world
    = Raise (KeyError key).
Proof.
  refine (proj2 (persistence_run_needs_keys sample_files sample_engine
    [{[ "name" := JStr "Conwy Castle" ]}; record "A" "B" JNull] empty_world)
    sample_statements {[ "name" := JStr "Conwy Castle" ]} [record "A" "B" JNull]
    sample_loads sample_contract eq_refl _).
  intros (_ & _ & [v Hv]). vm_compute in Hv. discriminate Hv.
Defined.

(** X14: the run needs both insert statements whatever the records are:
    when [insertCastleImage.sql] is missing, the other statement files are
    present and the engine accepts the schema and the delete-all statement,
    the run raises [FileNotFoundError] for that file on every record list,
    also on an empty one and on records without image. *)
Theorem insert_statements_loaded_eagerly
    (read_file : string → option string)
    (cursor_execute : string → list sqlval → list row → option (list row))
    (create_table delete_data without_image : string)
    (castles : list castle) (w : world) :
  read_file "createTable.sql" = Some create_table →
  read_file "deleteData.sql" = Some delete_data →
  read_file "insertCastleWithoutImage.sql" = Some without_image →
  read_file "insertCastleImage.sql" = None →
  (∀ cur, is_Some (cursor_execute create_table [] cur)) →
  (∀ cur, is_Some (cursor_execute delete_data [] cur)) →
  populate_table read_file cursor_execute castles w
  = Raise (FileNotFoundError "insertCastleImage.sql").
Proof.
  intros Hc Hd Hwo Hw Hcreate Hdelete.
  rewrite populate_table_run. unfold get_query, run_statement.
  rewrite Hc, Hd, Hwo, Hw. simpl.
  destruct (Hcreate (table (opened w))) as [cur0 ->]. simpl.
  destruct (Hdelete cur0) as [cur1 ->]. done.
Qed.

Lemma insert_statements_loaded_eagerly_witness :
  populate_table
    (λ filename,
       if String.eqb filename "insertCastleImage.sql" then None
       else sample_files filename)
    sample_engine [] empty_world
  = Raise (FileNotFoundError "insertCastleImage.sql").
Proof.
  apply (insert_statements_loaded_eagerly _ sample_engine
           (create_table_query sample_statements)
           (delete_data_query sample_statements)
           (insert_without_image sample_statements)).
  - reflexivity.
  - reflexivity.
  - reflexivity.
  - reflexivity.
  - intros cur. exists cur. vm_compute. reflexivity.
  - intros cur. exists []. vm_compute. reflexivity.
Defined.

(** ** The two branches of [main] *)





(** ** From the query result to the table *)








